(** * A file-backed document store: model and verified properties

    The development follows [main.go]: a [Driver] owns a root directory and
    a registry of per-collection mutexes, and offers [Write], [Read],
    [ReadAll] and [Delete] on documents stored as [<resource>.json] files
    inside one directory per collection.

    The program is embedded shallowly.  Go strings are [string]; the
    functions of [path/filepath], [os] and [io/ioutil] that the driver
    calls are modelled over a file-system state; the driver's methods are
    state-passing functions that return Go's [error] value next to the
    new state. *)

From Stdlib Require Import Ascii String.
From stdpp Require Import base option list strings gmap fin_maps sorting.

(** ** Results

    A Go function returning [(T, error)] whose value is meaningless when
    the error is set is given the type [result E T]. *)

Inductive result (E A : Type) :=
| Ok (a : A)
| Err (e : E).
Arguments Ok {E A} a.
Arguments Err {E A} e.

(** ** Go strings *)

Module strings_go.

(** [strings.Split(s, "/")]: the pieces of [s] between separators; never
    an empty list. *)
Fixpoint split (s : string) : list string :=
  match s with
  | EmptyString => [EmptyString]
  | String c r =>
      if decide (c = "/"%char) then EmptyString :: split r
      else match split r with
           | h :: t => String c h :: t
           | [] => [String c EmptyString]
           end
  end.

(** [strings.Join(l, "/")]. *)
Fixpoint join (l : list string) : string :=
  match l with
  | [] => ""
  | [x] => x
  | x :: rest => x +:+ "/" +:+ join rest
  end.

(** [s[0] == '/'] guarded by [len(s) > 0]. *)
Definition has_sep_prefix (s : string) : bool :=
  match s with
  | String c _ => bool_decide (c = "/"%char)
  | EmptyString => false
  end.

(** No separator occurs in [s]. *)
Fixpoint sep_free (s : string) : bool :=
  match s with
  | EmptyString => true
  | String c r => negb (bool_decide (c = "/"%char)) && sep_free r
  end.

End strings_go.

(** ** path/filepath (Unix) *)

Module filepath.
Import strings_go.

(** One path element processed by [Clean].  [out] is the output built so
    far, innermost element first.  Empty and [.] elements are dropped; a
    [..] removes the element before it when that is a real name, is kept
    when the path is relative and nothing can be removed, and is dropped
    at the root of a rooted path. *)
Definition clean_step (rooted : bool) (out : list string) (elem : string)
  : list string :=
  if decide (elem = "") then out
  else if decide (elem = ".") then out
  else if decide (elem = "..") then
    match out with
    | top :: rest => if decide (top = "..") then ".." :: out else rest
    | [] => if rooted then [] else [".."]
    end
  else elem :: out.

(** The string [Clean] returns for the elements [l], outermost first. *)
Definition render (rooted : bool) (l : list string) : string :=
  if rooted then "/" +:+ join l
  else match l with
       | [] => "."
       | _ => join l
       end.

(** [filepath.Clean]. *)
Definition Clean (path : string) : string :=
  if decide (path = "") then "."
  else
    let rooted := has_sep_prefix path in
    render rooted (rev (fold_left (clean_step rooted) (split path) [])).

(** [filepath.Join]: leading empty elements are ignored; from the first
    non-empty element on, everything is joined with the separator and
    cleaned.  All-empty input gives the empty string. *)
Fixpoint Join (elem : list string) : string :=
  match elem with
  | [] => ""
  | e :: rest => if decide (e = "") then Join rest else Clean (join elem)
  end.

(** The state of [Clean] after the elements of [path], started in
    [out]. *)
Definition elems (rooted : bool) (path : string) (out : list string)
  : list string :=
  fold_left (clean_step rooted) (split path) out.

(** An element [Clean] keeps: non-empty, not [.], without separator. *)
Definition is_elem (n : string) : bool :=
  bool_decide (n ≠ "") && bool_decide (n ≠ ".") && sep_free n.

(** A file name: an element other than [..]. *)
Definition is_name (n : string) : bool :=
  is_elem n && bool_decide (n ≠ "..").

(** The path climbs above its start: cleaned as a relative path it
    keeps a [..].  [Clean] drops such a [..] when the path is rooted. *)
Definition climbs (path : string) : bool :=
  bool_decide (".." ∈ elems false path []).

(** The outputs [Clean] can build, innermost element first: kept
    elements only, and [..] only at the outer end of a relative path. *)
Fixpoint clean_out (rooted : bool) (out : list string) : bool :=
  match out with
  | [] => true
  | x :: rest =>
      is_elem x
      && (if decide (x = "..")
          then negb rooted && forallb (λ y, bool_decide (y = "..")) rest
          else true)
      && clean_out rooted rest
  end.

End filepath.

(** ** The file system and package os

    A file system is a finite map from absolute paths, as lists of names
    below the root, to nodes.  System calls resolve a path string
    against the working directory [cwd] and walk from the root: every
    proper prefix of the target has to be a directory.

    Nodes are directories and regular files; there are no links, and a
    call fails only for what the tree says (a missing or wrong kind of
    node), not for permissions, lack of space or the limits on the
    length and the bytes of names (see [admissible]).  Calls run one
    after the other. *)

Module os.
Import strings_go.

Inductive errno :=
  ENOENT | ENOTDIR | EISDIR | ENOTEMPTY | EINVAL | EBUSY | EEXIST.

#[global] Instance errno_eq_dec : EqDecision errno.
Proof. solve_decision. Defined.

Inductive node :=
| File (data : string)
| Dir.

#[global] Instance node_eq_dec : EqDecision node.
Proof. solve_decision. Defined.

(** What [FileInfo.Mode()] can tell about a node. *)
Inductive FileMode := ModeDir | ModeRegular.

Definition IsDir (m : FileMode) : bool :=
  match m with ModeDir => true | ModeRegular => false end.
Definition IsRegular (m : FileMode) : bool :=
  match m with ModeRegular => true | ModeDir => false end.

Definition mode_of (n : node) : FileMode :=
  match n with Dir => ModeDir | File _ => ModeRegular end.

Abbreviation tree := (gmap (list string) node).

(** [os.IsNotExist]. *)
Definition IsNotExist (e : errno) : bool := bool_decide (e = ENOENT).

Definition parent (p : list string) : list string := rev (tail (rev p)).

(** Path walk from the prefix [pre] down the names [rest]. *)
Fixpoint walk (fs : tree) (pre rest : list string)
  : result errno node :=
  match fs !! pre with
  | None => Err ENOENT
  | Some n =>
      match rest with
      | [] => Ok n
      | c :: rest' =>
          match n with
          | Dir => walk fs (pre ++ [c]) rest'
          | File _ => Err ENOTDIR
          end
      end
  end.

Definition lookup_path (fs : tree) (p : list string) : result errno node :=
  walk fs [] p.

(** The names of the entries of directory [p], sorted by name as
    [ioutil.ReadDir] returns them. *)
Definition child_name (p k : list string) : option string :=
  match rev k with
  | c :: rk => if decide (rev rk = p) then Some c else None
  | [] => None
  end.

Definition entries (fs : tree) (p : list string) : list string :=
  merge_sort String.le (omap (child_name p) (map_to_list fs).*1).

(** mkdir(2) on an absolute path. *)
Definition mkdir (p : list string) (fs : tree) : tree * option errno :=
  match lookup_path fs p with
  | Ok _ => (fs, Some EEXIST)
  | Err ENOENT =>
      match lookup_path fs (parent p) with
      | Ok Dir => (<[p := Dir]> fs, None)
      | Ok (File _) => (fs, Some ENOTDIR)
      | Err e => (fs, Some e)
      end
  | Err e => (fs, Some e)
  end.

(** [os.MkdirAll] on an absolute path given innermost name first: an
    existing directory is success, an existing file is ENOTDIR;
    otherwise the parent is made first and then the directory itself. *)
Fixpoint mkdir_all (rp : list string) (fs : tree) : tree * option errno :=
  match lookup_path fs (rev rp) with
  | Ok Dir => (fs, None)
  | Ok (File _) => (fs, Some ENOTDIR)
  | Err _ =>
      match rp with
      | [] => mkdir [] fs
      | _ :: rp' =>
          match mkdir_all rp' fs with
          | (fs1, Some e) => (fs1, Some e)
          | (fs1, None) =>
              match mkdir (rev rp) fs1 with
              | (fs2, None) => (fs2, None)
              | (fs2, Some e) =>
                  match lookup_path fs2 (rev rp) with
                  | Ok Dir => (fs2, None)
                  | _ => (fs2, Some e)
                  end
              end
          end
      end
  end.

(** open(2) with O_WRONLY|O_CREATE|O_TRUNC followed by a full write. *)
Definition write_file (p : list string) (data : string) (fs : tree)
  : tree * option errno :=
  match lookup_path fs p with
  | Ok Dir => (fs, Some EISDIR)
  | Ok (File _) => (<[p := File data]> fs, None)
  | Err ENOENT =>
      match lookup_path fs (parent p) with
      | Ok Dir => (<[p := File data]> fs, None)
      | Ok (File _) => (fs, Some ENOTDIR)
      | Err e => (fs, Some e)
      end
  | Err e => (fs, Some e)
  end.

(** Moving the subtree at [old] to [new]. *)
Definition reprefix (old new k : list string) : list string :=
  if decide (old `prefix_of` k) then new ++ drop (length old) k else k.

Definition move_tree (old new : list string) (fs : tree) : tree :=
  list_to_map (prod_map (reprefix old new) id <$> map_to_list fs).

(** rename(2) on absolute paths. *)
Definition rename (old new : list string) (fs : tree)
  : tree * option errno :=
  match lookup_path fs old with
  | Err e => (fs, Some e)
  | Ok src =>
      match lookup_path fs (parent new) with
      | Err e => (fs, Some e)
      | Ok (File _) => (fs, Some ENOTDIR)
      | Ok Dir =>
          match src, fs !! new with
          | File data, Some Dir => (fs, Some EISDIR)
          | File data, _ => (<[new := File data]> (delete old fs), None)
          | Dir, Some (File _) => (fs, Some ENOTDIR)
          | Dir, dst =>
              if decide (old = new) then (fs, None)
              else if decide (old `prefix_of` new) then (fs, Some EINVAL)
              else if decide (dst = Some Dir ∧ entries fs new ≠ [])
              then (fs, Some ENOTEMPTY)
              else (move_tree old new (delete new fs), None)
          end
      end
  end.

(** [os.Rename] on absolute paths.  Go looks at the target before it
    calls rename(2): when the target is a directory, [os.Rename] fails
    with the error of reaching the source or else with EEXIST, unless
    the two names are different spellings of that same directory.
    [same] tells whether the two path strings are equal. *)
Definition os_rename (same : bool) (old new : list string) (fs : tree)
  : tree * option errno :=
  match lookup_path fs new with
  | Ok Dir =>
      match lookup_path fs old with
      | Err e => (fs, Some e)
      | Ok _ =>
          if same || bool_decide (old ≠ new) then (fs, Some EEXIST)
          else rename old new fs
      end
  | _ => rename old new fs
  end.

(** Removing [p] and everything below it. *)
Definition remove_tree (p : list string) (fs : tree) : tree :=
  filter (λ kv, ¬ p `prefix_of` kv.1) fs.

(** Removing everything below [p], but not [p]. *)
Definition empty_tree (p : list string) (fs : tree) : tree :=
  filter (λ kv, p `prefix_of` kv.1 → kv.1 = p) fs.

(** What [mkdir_all] may change on the way to [p]: it adds directories
    at prefixes of [p] that did not exist, and nothing else. *)
Definition only_adds_dirs (p : list string) (fs fs' : tree) : Prop :=
  ∀ q, fs' !! q = fs !! q
       ∨ (fs !! q = None ∧ fs' !! q = Some Dir ∧ q `prefix_of` p).

(** [fs'] is [fs] without [p] and everything below it. *)
Definition removed (p : list string) (fs fs' : tree) : Prop :=
  ∀ q, fs' !! q = if decide (p `prefix_of` q) then None else fs !! q.

(** [fs'] is [fs] without what lies below [p]; [p] itself stays. *)
Definition emptied (p : list string) (fs fs' : tree) : Prop :=
  ∀ q, fs' !! q = if decide (p `prefix_of` q ∧ q ≠ p) then None
                  else fs !! q.

(** Every path of the tree is made of file names. *)
Definition names_ok (fs : tree) : Prop :=
  map_Forall (λ k _, Forall (λ n, filepath.is_name n = true) k) fs.

(** Reading the entry [n] of the directory [p]. *)
Definition entry_data (fs : tree) (p : list string) (n : string)
  : result errno string :=
  match fs !! (p ++ [n]) with
  | Some (File data) => Ok data
  | Some Dir => Err EISDIR
  | None => Err ENOENT
  end.

(** The final element of the path string is [.]. *)
Definition endsWithDot (path : string) : bool :=
  bool_decide (last (split path) = Some ".").

(** The final element of the path string is [..]: rmdir(2) and
    unlinkat(2) refuse such a path with ENOTEMPTY. *)
Definition endsWithDotDot (path : string) : bool :=
  bool_decide (last (split path) = Some "..").

(** Limits on path strings that the tree does not record.  Go refuses a
    path that holds a NUL byte with EINVAL, and the kernel refuses with
    ENAMETOOLONG a path of [PATH_MAX] bytes or more and a path element
    of more than [NAME_MAX] bytes.  [admissible] paths are within these
    limits; the calls below say what happens on such paths. *)
Definition NAME_MAX : nat := 255.
Definition PATH_MAX : nat := 4096.

Fixpoint has_nul (s : string) : bool :=
  match s with
  | EmptyString => false
  | String c r => bool_decide (c = "000"%char) || has_nul r
  end.

Definition admissible (path : string) : bool :=
  negb (has_nul path)
  && bool_decide (String.length path < PATH_MAX)
  && forallb (λ e, bool_decide (String.length e ≤ NAME_MAX)) (split path).

Section syscalls.
(** The working directory of the process, as an absolute path. *)
Variable cwd : list string.

Definition resolve_step (at_ : list string) (elem : string)
  : list string :=
  if decide (elem = "") then at_
  else if decide (elem = ".") then at_
  else if decide (elem = "..") then tail at_
  else elem :: at_.

(** The absolute path a path string denotes. *)
Definition resolve (path : string) : list string :=
  rev (fold_left resolve_step (split path)
         (if has_sep_prefix path then [] else rev cwd)).

(** [os.Stat]. *)
Definition Stat (path : string) (fs : tree) : result errno FileMode :=
  if decide (path = "") then Err ENOENT
  else match lookup_path fs (resolve path) with
       | Ok n => Ok (mode_of n)
       | Err e => Err e
       end.

(** [os.MkdirAll]. *)
Definition MkdirAll (path : string) (fs : tree) : tree * option errno :=
  if decide (path = "") then (fs, Some ENOENT)
  else mkdir_all (rev (resolve path)) fs.

(** [ioutil.WriteFile]. *)
Definition WriteFile (path : string) (data : string) (fs : tree)
  : tree * option errno :=
  if decide (path = "") then (fs, Some ENOENT)
  else write_file (resolve path) data fs.

(** [os.Rename]. *)
Definition Rename (oldpath newpath : string) (fs : tree)
  : tree * option errno :=
  if decide (oldpath = "" ∨ newpath = "") then (fs, Some ENOENT)
  else os_rename (bool_decide (oldpath = newpath))
         (resolve oldpath) (resolve newpath) fs.

(** [ioutil.ReadFile]: reading a directory fails with EISDIR. *)
Definition ReadFile (path : string) (fs : tree) : result errno string :=
  if decide (path = "") then Err ENOENT
  else match lookup_path fs (resolve path) with
       | Ok (File data) => Ok data
       | Ok Dir => Err EISDIR
       | Err e => Err e
       end.

(** [ioutil.ReadDir]: the entry names, sorted. *)
Definition ReadDir (path : string) (fs : tree)
  : result errno (list string) :=
  if decide (path = "") then Err ENOENT
  else match lookup_path fs (resolve path) with
       | Ok Dir => Ok (entries fs (resolve path))
       | Ok (File _) => Err ENOTDIR
       | Err e => Err e
       end.

(** [os.RemoveAll]: the empty path is a silent no-op, a path whose
    final element is [.] is refused with EINVAL, a path that does not
    exist is success; otherwise the node and all below it go.  Two
    directories cannot be removed themselves: for a path whose final
    element is [..] the contents go and the last unlinkat(2) fails with
    ENOTEMPTY, and for the root the contents go and EBUSY is
    returned. *)
Definition RemoveAll (path : string) (fs : tree) : tree * option errno :=
  if decide (path = "") then (fs, None)
  else if endsWithDot path then (fs, Some EINVAL)
  else match lookup_path fs (resolve path) with
       | Err ENOENT => (fs, None)
       | Err e => (fs, Some e)
       | Ok _ =>
           if endsWithDotDot path
           then (empty_tree (resolve path) fs, Some ENOTEMPTY)
           else
             match resolve path with
             | [] => (filter (λ kv, kv.1 = []) fs, Some EBUSY)
             | p => (remove_tree p fs, None)
             end
       end.
End syscalls.

End os.

(** ** The driver *)

Module driver.
Import strings_go filepath os.

(** Go's [error] values as the driver produces them. *)
Inductive error :=
| Errorf (msg : string)
| PathError (e : errno)
| MarshalError
| UnmarshalError.

#[global] Instance error_eq_dec : EqDecision error.
Proof. solve_decision. Defined.

(** A [*sync.Mutex] is the address of the allocated mutex. *)
Definition Mutex := nat.

(** The [Driver] struct: the registry [mutexes] and the root [dir].  The
    guard [mutex] only makes [getOrCreateMutex] atomic and the logger is
    only written to, so neither is represented. *)
Record Driver := mkDriver {
  mutexes : gmap string Mutex;
  dir : string
}.

(** What lies outside the struct: the files and the next free address of
    the allocator. *)
Record World := mkWorld {
  files : tree;
  heap_top : nat
}.

Definition set_files (fs : tree) (w : World) : World :=
  mkWorld fs (heap_top w).

(** [d.getOrCreateMutex(collection)]. *)
Definition getOrCreateMutex (collection : string) (d : Driver) (w : World)
  : Mutex * Driver * World :=
  match mutexes d !! collection with
  | Some m => (m, d, w)
  | None =>
      let m := heap_top w in
      (m, mkDriver (<[collection := m]> (mutexes d)) (dir d),
       mkWorld (files w) (S (heap_top w)))
  end.

Section driver.
Variable cwd : list string.

(** [encoding/json] on the caller's document type. *)
Variable Value : Type.
Variable MarshalIndent : Value → option string.
Variable Unmarshal : string → option Value.

Definition newline : string := String "010"%char EmptyString.

(** [New(dir, options)]. *)
Definition New (dir : string) (w : World)
  : Driver * option error * World :=
  let dir := Clean dir in
  let driver := mkDriver ∅ dir in
  match Stat cwd dir (files w) with
  | Ok _ => (driver, None, w)
  | Err _ =>
      let '(fs1, err) := MkdirAll cwd dir (files w) in
      (driver, PathError <$> err, set_files fs1 w)
  end.

(** [stat(path)]: the bare path, and the path with the suffix when the
    bare one does not exist. *)
Definition stat (path : string) (fs : tree) : result errno FileMode :=
  match Stat cwd path fs with
  | Err e =>
      if IsNotExist e then Stat cwd (path +:+ ".json") fs else Err e
  | Ok fi => Ok fi
  end.

(** [d.Write(collection, resource, value)]. *)
Definition Write (collection resource : string) (value : Value)
    (d : Driver) (w : World) : option error * Driver * World :=
  if decide (collection = "") then
    (Some (Errorf "Missing collection - no place to save records"), d, w)
  else if decide (resource = "") then
    (Some (Errorf "Missing resource - unable to save records (no name)"),
     d, w)
  else
    let '(mutex, d, w) := getOrCreateMutex collection d w in
    let dir_ := Join [dir d; collection] in
    let finalPath := Join [dir_; resource +:+ ".json"] in
    let tempPath := finalPath +:+ ".tmp" in
    match MkdirAll cwd dir_ (files w) with
    | (fs1, Some e) => (Some (PathError e), d, set_files fs1 w)
    | (fs1, None) =>
        match MarshalIndent value with
        | None => (Some MarshalError, d, set_files fs1 w)
        | Some b =>
            let b := b +:+ newline in
            match WriteFile cwd tempPath b fs1 with
            | (fs2, Some e) => (Some (PathError e), d, set_files fs2 w)
            | (fs2, None) =>
                let '(fs3, err) := Rename cwd tempPath finalPath fs2 in
                (PathError <$> err, d, set_files fs3 w)
            end
        end
    end.

(** [d.Read(collection, resource, value)]; the decoded document is the
    result. *)
Definition Read (collection resource : string) (d : Driver) (w : World)
  : result error Value :=
  if decide (collection = "") then
    Err (Errorf "Missing collection - unable to read")
  else if decide (resource = "") then
    Err (Errorf "Missing resource - unable to save record (no name)")
  else
    let record := Join [dir d; collection; resource] in
    match stat record (files w) with
    | Err e => Err (PathError e)
    | Ok _ =>
        match ReadFile cwd (record +:+ ".json") (files w) with
        | Err e => Err (PathError e)
        | Ok b =>
            match Unmarshal b with
            | Some v => Ok v
            | None => Err UnmarshalError
            end
        end
    end.

(** The loop of [ReadAll] over the directory listing. *)
Fixpoint read_records (dir_ : string) (fs : tree) (file : list string)
    (records : list string) : list string * option error :=
  match file with
  | [] => (records, None)
  | x :: rest =>
      match ReadFile cwd (Join [dir_; x]) fs with
      | Err e => ([], Some (PathError e))
      | Ok data => read_records dir_ fs rest (records ++ [data])
      end
  end.

(** [d.ReadAll(collection)]. *)
Definition ReadAll (collection : string) (d : Driver) (w : World)
  : list string * option error :=
  if decide (collection = "") then
    ([], Some (Errorf "Missing collection - unable to read"))
  else
    let dir_ := Join [dir d; collection] in
    match stat dir_ (files w) with
    | Err e => ([], Some (PathError e))
    | Ok _ =>
        match ReadDir cwd dir_ (files w) with
        | Err e => ([], Some (PathError e))
        | Ok file => read_records dir_ (files w) file []
        end
    end.

(** [d.Delete(collection, resource)]. *)
Definition Delete (collection resource : string) (d : Driver) (w : World)
  : option error * Driver * World :=
  let path := Join [collection; resource] in
  let '(mutex, d, w) := getOrCreateMutex collection d w in
  let dir_ := Join [dir d; path] in
  match stat dir_ (files w) with
  | Err _ =>
      (Some (Errorf ("unable to find file or directory named "
                     +:+ path +:+ newline)), d, w)
  | Ok fi =>
      if IsDir fi then
        let '(fs1, err) := RemoveAll cwd dir_ (files w) in
        (PathError <$> err, d, set_files fs1 w)
      else if IsRegular fi then
        let '(fs1, err) := RemoveAll cwd (dir_ +:+ ".json") (files w) in
        (PathError <$> err, d, set_files fs1 w)
      else (None, d, w)
  end.

(** The calls a client makes on a driver, and their effect on the
    driver and the world. *)
Inductive call :=
| CallWrite (collection resource : string) (value : Value)
| CallRead (collection resource : string)
| CallReadAll (collection : string)
| CallDelete (collection resource : string)
| CallMutex (collection : string).

Definition step (c : call) (d : Driver) (w : World) : Driver * World :=
  match c with
  | CallWrite collection resource value =>
      let '(_, d1, w1) := Write collection resource value d w in (d1, w1)
  | CallRead _ _ => (d, w)
  | CallReadAll _ => (d, w)
  | CallDelete collection resource =>
      let '(_, d1, w1) := Delete collection resource d w in (d1, w1)
  | CallMutex collection =>
      let '(_, d1, w1) := getOrCreateMutex collection d w in (d1, w1)
  end.

Fixpoint run (calls : list call) (d : Driver) (w : World) : Driver * World :=
  match calls with
  | [] => (d, w)
  | c :: rest => let '(d1, w1) := step c d w in run rest d1 w1
  end.

(** The loop of [main] over the records to store: each is written under
    its name, and the error [Write] returns is dropped. *)
Fixpoint write_each (collection : string) (records : list (string * Value))
    (d : Driver) (w : World) : Driver * World :=
  match records with
  | [] => (d, w)
  | (name, value) :: rest =>
      let '(_, d1, w1) := Write collection name value d w in
      write_each collection rest d1 w1
  end.

(** The document [Unmarshal] gives for stored bytes. *)
Definition decode (b : string) : result error Value :=
  match Unmarshal b with
  | Some v => Ok v
  | None => Err UnmarshalError
  end.

(** [doc] survives the serializer: it can be encoded, and the encoding
    followed by the newline [Write] adds decodes to [doc]. *)
Definition representable (doc : Value) : Prop :=
  ∃ b, MarshalIndent doc = Some b ∧ Unmarshal (b +:+ newline) = Some doc.

(** The messages of the name checks. *)
Definition is_validation_error (e : error) : bool :=
  match e with
  | Errorf msg =>
      bool_decide (msg ∈ [
        "Missing collection - no place to save records";
        "Missing resource - unable to save records (no name)";
        "Missing collection - unable to read";
        "Missing resource - unable to save record (no name)"])
  | _ => false
  end.
End driver.

(** Every entry of the registry of [d] is an entry of [d'], with the
    same mutex. *)
Definition registry_le (d d' : Driver) : Prop :=
  ∀ c m, mutexes d !! c = Some m → mutexes d' !! c = Some m.

(** The registry hands out allocated mutexes only, and never the same
    mutex under two names. *)
Definition registry_ok (d : Driver) (w : World) : Prop :=
  (∀ c m, mutexes d !! c = Some m → m < heap_top w)
  ∧ (∀ c1 c2 m, mutexes d !! c1 = Some m → mutexes d !! c2 = Some m →
                c1 = c2).

(** The string that [Join] cleans for the directory of a collection. *)
Definition coll_base (d C : string) : string :=
  if decide (d = "") then C else d +:+ "/" +:+ C.

(** How the paths of [Write] and [Read] for resource [R] of collection
    [C] lie below the collection directory [P]. *)
Record coll_paths (cwd : list string) (d C R : string) (P : list string) := {
  cp_dir : resolve cwd (Join [d; C]) = P;
  cp_dir_ne : Join [d; C] ≠ "";
  cp_entry n : is_name n = true →
    resolve cwd (Join [Join [d; C]; n]) = P ++ [n];
  cp_final :
    resolve cwd (Join [Join [d; C]; R +:+ ".json"]) = P ++ [R +:+ ".json"];
  cp_final_ne : Join [Join [d; C]; R +:+ ".json"] ≠ "";
  cp_temp :
    resolve cwd (Join [Join [d; C]; R +:+ ".json"] +:+ ".tmp")
    = P ++ [R +:+ ".json.tmp"];
  cp_record : resolve cwd (Join [d; C; R]) = P ++ [R];
  cp_record_ne : Join [d; C; R] ≠ "";
  cp_suffixed : Join [d; C; R] +:+ ".json" = Join [Join [d; C]; R +:+ ".json"]
}.

(** The collection directory [P] holds what the map [M] says: one
    regular file per key, with the value as content, and every key ends
    in the suffix. *)
Definition holds (P : list string) (M : gmap string string) (fs : tree)
  : Prop :=
  (∀ n, fs !! (P ++ [n]) = File <$> M !! n)
  ∧ (∀ n, is_Some (M !! n) → ∃ x, n = x +:+ ".json").

End driver.

(** ** Fixtures

    A serializer and small disks for the concrete scenarios. *)

Module demo.
Import os driver.

(** A document is a line of text, stored as it is; decoding takes the
    final newline off and fails without one. *)
Definition MarshalIndent (v : string) : option string := Some v.

Fixpoint Unmarshal (b : string) : option string :=
  match b with
  | EmptyString => None
  | String c r =>
      if decide (r = "") then
        if decide (c = "010"%char) then Some "" else None
      else String c <$> Unmarshal r
  end.

(** A serializer that cannot encode anything. *)
Definition MarshalFail (v : string) : option string := None.

Definition cwd : list string := ["home"].

(** A disk with the working directory and nothing else, and the driver
    and world after [New("./db", nil)] on it. *)
Definition disk0 : tree := <[ ["home"] := Dir ]> {[ [] := Dir ]}.
Definition world0 : World := mkWorld disk0 0.
Definition db : Driver := (New cwd "./db" world0).1.1.
Definition world1 : World := (New cwd "./db" world0).2.

(** The world after [Write("users", "alice", "hello")]. *)
Definition db2 : Driver :=
  (Write cwd string MarshalIndent "users" "alice" "hello" db world1).1.2.
Definition world2 : World :=
  (Write cwd string MarshalIndent "users" "alice" "hello" db world1).2.

(** The world after a second resource was written, and the world with a
    subdirectory next to the first resource. *)
Definition world3 : World :=
  (Write cwd string MarshalIndent "users" "bob" "bye" db2 world2).2.
Definition world_sub : World :=
  mkWorld (<[ ["home"; "db"; "users"; "sub"] := Dir ]> (files world2)) 1.

(** A store in which the directory of the collection [users/alice.json]
    lies where the file of resource [alice] of [users] would. *)
Definition db_nested : Driver :=
  (Write cwd string MarshalIndent "users/alice.json" "r" "hello"
     db world1).1.2.
Definition world_nested : World :=
  (Write cwd string MarshalIndent "users/alice.json" "r" "hello"
     db world1).2.

(** The driver [New("./", nil)] gives: its root is the working
    directory. *)
Definition db_here : Driver := (New cwd "./" world0).1.1.

(** The driver [New("..", nil)] gives: its root is the parent of the
    working directory. *)
Definition db_parent : Driver := (New cwd ".." world0).1.1.

(** A collection whose only resource was stored without the suffix. *)
Definition world_bare : World :=
  mkWorld (<[ ["home"; "db"; "users"; "alice"] := File ("hello" +:+ newline) ]>
           (<[ ["home"; "db"; "users"] := Dir ]> (files world1))) 0.


(** A collection in which a directory lies at the final path of
    resource [alice]. *)
Definition world_dir_final : World :=
  mkWorld (<[ ["home"; "db"; "users"; "alice.json"] := Dir ]>
           (<[ ["home"; "db"; "users"] := Dir ]> (files world1))) 0.

(** Calls on two collections, and two records to store. *)
Definition two_collections : list (call string) :=
  [CallWrite string "users" "alice" "hello"; CallDelete string "pets" "rex";
   CallMutex string "users"].
Definition two_records : list (string * string) :=
  [("bob", "bye"); ("alice", "hello")].

End demo.

(** * Properties *)

(** ** Cleaning and joining on examples *)

Module filepath_examples.
Import filepath.

Example clean_inner_dotdot : Clean "a/../b" = "b".
Proof. reflexivity. Qed.
Example clean_slashes_dots : Clean "a//b/./c/" = "a/b/c".
Proof. reflexivity. Qed.
Example clean_leading_dotdot : Clean "a/../.." = "..".
Proof. reflexivity. Qed.
Example clean_keeps_dotdots : Clean "../../a/.." = "../..".
Proof. reflexivity. Qed.
Example clean_rooted_dotdot : Clean "/../a" = "/a".
Proof. reflexivity. Qed.
Example clean_root : Clean "/" = "/".
Proof. reflexivity. Qed.
Example clean_here : Clean "./" = ".".
Proof. reflexivity. Qed.
Example clean_empty : Clean "" = ".".
Proof. reflexivity. Qed.
Example join_empty : Join [""; ""] = "".
Proof. reflexivity. Qed.
Example join_skips_empty : Join ["db"; ""] = "db".
Proof. reflexivity. Qed.
Example join_here : Join ["."; "users"; "Ravi"] = "users/Ravi".
Proof. reflexivity. Qed.
Example join_dot_resource : Join ["db"; "users"; "."] = "db/users".
Proof. reflexivity. Qed.
Example join_dot_json : Join ["db/users"; "..json"] = "db/users/..json".
Proof. reflexivity. Qed.

End filepath_examples.

(** ** Splitting and joining strings *)

Module strings_facts.
Import strings_go.

Lemma app_cons c r b : String c r +:+ b = String c (r +:+ b).
Proof. reflexivity. Qed.

Lemma app_empty_l b : "" +:+ b = b.
Proof. reflexivity. Qed.

Lemma app_assoc a b c : (a +:+ b) +:+ c = a +:+ b +:+ c.
Proof. induction a as [|x a IH]; [done|]. rewrite !app_cons. by f_equal. Qed.

Lemma app_eq_empty a b : a +:+ b = "" → a = "" ∧ b = "".
Proof. destruct a; [done|]. by rewrite app_cons. Qed.

Lemma split_nonempty s : split s ≠ [].
Proof.
  destruct s as [|c r]; simpl; [done|].
  case_decide; [done|]. by destruct (split r).
Qed.

Lemma split_sep_free n : sep_free n = true → split n = [n].
Proof.
  induction n as [|c r IH]; simpl; [done|].
  intros [Hc Hr]%andb_true_iff. apply negb_true_iff, bool_decide_eq_false in Hc.
  case_decide; [done|]. by rewrite IH.
Qed.

Lemma split_app a b : split (a +:+ "/" +:+ b) = split a ++ split b.
Proof.
  induction a as [|c r IH].
  - rewrite app_empty_l, app_cons, app_empty_l. done.
  - rewrite app_cons. simpl. case_decide; rewrite IH; [done|].
    pose proof (split_nonempty r). by destruct (split r).
Qed.

Lemma split_all_sep_free s : Forall (λ x, sep_free x = true) (split s).
Proof.
  induction s as [|c r IH]; simpl.
  - by repeat constructor.
  - case_decide as Hc; [by constructor|].
    destruct (split r) as [|h t]; inversion IH; subst; constructor; simpl; auto.
    + by rewrite bool_decide_eq_false_2.
    + rewrite bool_decide_eq_false_2 by done. done.
Qed.

Lemma sep_free_app a b :
  sep_free (a +:+ b) = sep_free a && sep_free b.
Proof.
  induction a as [|c r IH]; [done|].
  rewrite app_cons. simpl. rewrite IH. by rewrite andb_assoc.
Qed.

Lemma join_snoc l n : l ≠ [] → join (l ++ [n]) = join l +:+ "/" +:+ n.
Proof.
  induction l as [|x [|y l] IH]; intros ?; [done|done|].
  change (join ((x :: y :: l) ++ [n])) with (x +:+ "/" +:+ join ((y :: l) ++ [n])).
  rewrite IH by done.
  change (join (x :: y :: l)) with (x +:+ "/" +:+ join (y :: l)).
  by rewrite !app_assoc.
Qed.

Lemma join_snoc_app l n s : join (l ++ [n]) +:+ s = join (l ++ [n +:+ s]).
Proof.
  destruct (decide (l = [])) as [->|Hl]; [done|].
  rewrite !join_snoc by done. by rewrite !app_assoc.
Qed.

Lemma split_join l :
  l ≠ [] → Forall (λ x, sep_free x = true) l → split (join l) = l.
Proof.
  induction l as [|x [|y l] IH]; intros ? Hl; [done|..].
  - inversion Hl; subst. by apply split_sep_free.
  - inversion Hl; subst.
    change (join (x :: y :: l)) with (x +:+ "/" +:+ join (y :: l)).
    rewrite split_app, IH, split_sep_free by done. done.
Qed.

Lemma has_sep_prefix_app a b :
  a ≠ "" → has_sep_prefix (a +:+ b) = has_sep_prefix a.
Proof. by destruct a. Qed.

End strings_facts.

(** ** Clean and Join *)

Module filepath_facts.
Import strings_go strings_facts filepath.

Lemma is_elem_spec n :
  is_elem n = true ↔ n ≠ "" ∧ n ≠ "." ∧ sep_free n = true.
Proof.
  unfold is_elem. rewrite !andb_true_iff, !bool_decide_eq_true. tauto.
Qed.

Lemma is_name_spec n :
  is_name n = true ↔ n ≠ "" ∧ n ≠ "." ∧ n ≠ ".." ∧ sep_free n = true.
Proof.
  unfold is_name. rewrite andb_true_iff, is_elem_spec, bool_decide_eq_true.
  tauto.
Qed.

Lemma is_name_elem n : is_name n = true → is_elem n = true.
Proof. unfold is_name. by intros [? _]%andb_true_iff. Qed.

Lemma clean_step_name r out n :
  is_name n = true → clean_step r out n = n :: out.
Proof.
  intros (? & ? & ? & _)%is_name_spec. unfold clean_step.
  by repeat case_decide.
Qed.

Lemma forallb_dotdot l :
  forallb (λ y : string, bool_decide (y = "..")) l = true
  ↔ Forall (λ y, y = "..") l.
Proof.
  induction l as [|y l IH]; simpl.
  - split; [by constructor|done].
  - rewrite andb_true_iff, bool_decide_eq_true, IH, Forall_cons. done.
Qed.

Lemma clean_out_cons r x rest :
  clean_out r (x :: rest) = true ↔
  is_elem x = true ∧ (x = ".." → r = false ∧ Forall (λ y, y = "..") rest)
  ∧ clean_out r rest = true.
Proof.
  simpl. rewrite !andb_true_iff. case_decide as Hx.
  - rewrite andb_true_iff, negb_true_iff, forallb_dotdot.
    split; [intros [[? ?] ?]|intros (? & ? & ?)]; auto.
  - split; [intros [[? ?] ?]|intros (? & ? & ?)]; auto.
    split_and!; [done| |done]. by intros ?.
Qed.

Lemma clean_out_tail r x out :
  clean_out r (x :: out) = true → clean_out r out = true.
Proof. by intros (_ & _ & ?)%clean_out_cons. Qed.

Lemma clean_out_head r x out :
  clean_out r (x :: out) = true → is_elem x = true.
Proof. by intros (? & _)%clean_out_cons. Qed.

Lemma clean_out_Forall r out :
  clean_out r out = true → Forall (λ x, is_elem x = true) out.
Proof.
  induction out as [|x out IH]; intros H; constructor.
  - by eapply clean_out_head.
  - eapply IH, clean_out_tail, H.
Qed.

Lemma clean_out_push r out n :
  is_name n = true → clean_out r out = true → clean_out r (n :: out) = true.
Proof.
  intros Hn Hout. apply clean_out_cons. split_and!; [|intros ->|done].
  - by apply is_name_elem.
  - by apply is_name_spec in Hn as (_ & _ & ? & _).
Qed.

Lemma clean_step_out r out e :
  sep_free e = true → clean_out r out = true →
  clean_out r (clean_step r out e) = true.
Proof.
  intros He Hout. unfold clean_step.
  destruct (decide (e = "")) as [|Hne]; [done|].
  destruct (decide (e = ".")) as [|Hnd]; [done|].
  destruct (decide (e = "..")) as [->|Hndd].
  - destruct out as [|top rest].
    + by destruct r.
    + destruct (decide (top = "..")) as [->|Htop].
      * pose proof Hout as (_ & Hdd & _)%clean_out_cons.
        destruct Hdd as [-> Hall]; [done|].
        apply clean_out_cons. split_and!; [done| |done].
        intros _. split; [done|]. by constructor.
      * by eapply clean_out_tail.
  - apply clean_out_push; [|done]. by apply is_name_spec.
Qed.

Lemma elems_out r path out :
  clean_out r out = true → clean_out r (elems r path out) = true.
Proof.
  unfold elems. pose proof (split_all_sep_free path) as Hs.
  revert out. induction Hs as [|e l He _ IH]; intros out Hout; [done|].
  simpl. by apply IH, clean_step_out.
Qed.

Lemma clean_step_elem r out x :
  clean_out r (x :: out) = true → clean_step r out x = x :: out.
Proof.
  intros (Hx & Hdd & _)%clean_out_cons.
  apply is_elem_spec in Hx as (? & ? & _).
  unfold clean_step. do 2 (case_decide; [done|]).
  case_decide as Hx; [|done]. subst x.
  destruct Hdd as [-> Hall]; [done|].
  destruct out as [|top rest]; [done|].
  inversion Hall; subst. by case_decide.
Qed.

Lemma refold r out :
  clean_out r out = true → fold_left (clean_step r) (rev out) [] = out.
Proof.
  induction out as [|x out IH]; intros H; [done|].
  simpl. rewrite fold_left_app. simpl.
  rewrite IH by (by eapply clean_out_tail). by apply clean_step_elem.
Qed.

Lemma clean_out_sep_free r out :
  clean_out r out = true → Forall (λ x, sep_free x = true) (rev out).
Proof.
  intros H. apply List.Forall_rev.
  eapply Forall_impl; [by eapply clean_out_Forall|].
  by intros x (_ & _ & ?)%is_elem_spec.
Qed.

Lemma rev_nil_inv {A} (l : list A) : rev l = [] → l = [].
Proof. destruct l; [done|]. simpl. by destruct (rev l). Qed.

Lemma elems_render r out :
  clean_out r out = true → elems r (render r (rev out)) [] = out.
Proof.
  intros H. unfold elems, render.
  destruct (rev out) as [|y l] eqn:Hrev.
  - apply rev_nil_inv in Hrev as ->. by destruct r.
  - assert (split (join (y :: l)) = y :: l) as Hsp.
    { apply split_join; [done|]. rewrite <-Hrev. by eapply clean_out_sep_free. }
    destruct r.
    + rewrite app_cons, app_empty_l.
      change (split (String "/" (join (y :: l))))
        with ("" :: split (join (y :: l))).
      rewrite Hsp, <-Hrev.
      change (fold_left (clean_step true) ("" :: rev out) [])
        with (fold_left (clean_step true) (rev out) []).
      by apply refold.
    + rewrite Hsp, <-Hrev. by apply refold.
Qed.

Lemma join_cons_sep_prefix y l :
  y ≠ "" → has_sep_prefix (join (y :: l)) = has_sep_prefix y.
Proof.
  intros ?. destruct l; [done|].
  change (join (y :: s :: l)) with (y +:+ "/" +:+ join (s :: l)).
  by apply has_sep_prefix_app.
Qed.

Lemma is_elem_no_sep_prefix y : is_elem y = true → has_sep_prefix y = false.
Proof.
  intros (? & _ & Hs)%is_elem_spec. destruct y as [|c y]; [done|].
  simpl in *. apply andb_true_iff in Hs as [Hc _].
  by apply negb_true_iff in Hc.
Qed.

Lemma render_sep_prefix r out :
  clean_out r out = true → has_sep_prefix (render r (rev out)) = r.
Proof.
  intros H. unfold render. destruct r; [done|].
  destruct (rev out) as [|y l] eqn:Hrev; [done|].
  assert (is_elem y = true) as Hy.
  { apply clean_out_Forall in H. rewrite Forall_forall in H. apply H.
    apply list_elem_of_In, in_rev. rewrite Hrev. by left. }
  rewrite join_cons_sep_prefix.
  - by apply is_elem_no_sep_prefix.
  - by apply is_elem_spec in Hy as (? & _).
Qed.

Lemma render_nonempty r out :
  clean_out r out = true → render r (rev out) ≠ "".
Proof.
  intros H Heq. pose proof (elems_render _ _ H) as He.
  pose proof (render_sep_prefix _ _ H) as Hp. rewrite Heq in He, Hp.
  simpl in Hp. subst r. unfold render in Heq.
  destruct (rev out) as [|y l] eqn:Hrev; [done|].
  cbv in He. subst out. done.
Qed.

Lemma Clean_elems a :
  a ≠ "" →
  Clean a = render (has_sep_prefix a) (rev (elems (has_sep_prefix a) a [])).
Proof. intros ?. unfold Clean. by case_decide. Qed.

Lemma elems_app r a b out :
  elems r (a +:+ "/" +:+ b) out = elems r b (elems r a out).
Proof. unfold elems. by rewrite split_app, fold_left_app. Qed.

Lemma Clean_sep_prefix a : a ≠ "" → has_sep_prefix (Clean a) = has_sep_prefix a.
Proof.
  intros ?. rewrite Clean_elems by done. by apply render_sep_prefix, elems_out.
Qed.

Lemma Clean_nonempty a : Clean a ≠ "".
Proof.
  destruct (decide (a = "")) as [->|?]; [done|].
  rewrite Clean_elems by done. by apply render_nonempty, elems_out.
Qed.

Lemma elems_Clean a :
  a ≠ "" → elems (has_sep_prefix a) (Clean a) [] = elems (has_sep_prefix a) a [].
Proof.
  intros ?. rewrite Clean_elems by done. by apply elems_render, elems_out.
Qed.

(** Cleaning the left part of a path first does not change the result. *)
Lemma Clean_Clean_l a b :
  a ≠ "" → Clean (Clean a +:+ "/" +:+ b) = Clean (a +:+ "/" +:+ b).
Proof.
  intros Ha. pose proof (Clean_nonempty a) as Hc.
  rewrite (Clean_elems (Clean a +:+ _)), (Clean_elems (a +:+ _)).
  - rewrite !has_sep_prefix_app by done. rewrite Clean_sep_prefix by done.
    by rewrite !elems_app, elems_Clean.
  - by intros [? _]%app_eq_empty.
  - by intros [? _]%app_eq_empty.
Qed.

Lemma Clean_name a n :
  a ≠ "" → is_name n = true →
  Clean (a +:+ "/" +:+ n)
  = render (has_sep_prefix a) (rev (elems (has_sep_prefix a) a []) ++ [n]).
Proof.
  intros Ha Hn. rewrite Clean_elems by (by intros [? _]%app_eq_empty).
  rewrite has_sep_prefix_app, elems_app by done.
  unfold elems at 1. rewrite split_sep_free.
  - simpl. by rewrite clean_step_name.
  - by apply is_name_spec in Hn as (_ & _ & _ & ?).
Qed.

Lemma render_snoc_app r l n s :
  render r (l ++ [n]) +:+ s = render r (l ++ [n +:+ s]).
Proof.
  unfold render. destruct r.
  - by rewrite app_assoc, join_snoc_app.
  - destruct l; [done|]. apply (join_snoc_app (_ :: _)).
Qed.

End filepath_facts.

(** ** Walks and system calls *)

Module os_facts.
Import strings_go strings_facts filepath filepath_facts os.

Lemma parent_snoc p c : parent (p ++ [c]) = p.
Proof. unfold parent. rewrite rev_unit. simpl. apply rev_involutive. Qed.

Lemma walk_snoc (fs : tree) pre p c :
  walk fs pre (p ++ [c]) =
  match walk fs pre p with
  | Ok Dir =>
      match fs !! (pre ++ p ++ [c]) with
      | Some n => Ok n
      | None => Err ENOENT
      end
  | Ok (File _) => Err ENOTDIR
  | Err e => Err e
  end.
Proof.
  revert pre. induction p as [|x p IH]; intros pre; simpl.
  - destruct (fs !! pre) as [[]|]; done.
  - destruct (fs !! pre) as [[]|]; [done| |done].
    rewrite IH. by rewrite <-(assoc_L (++) pre [x]).
Qed.

Lemma lookup_path_snoc (fs : tree) p c :
  lookup_path fs (p ++ [c]) =
  match lookup_path fs p with
  | Ok Dir =>
      match fs !! (p ++ [c]) with
      | Some n => Ok n
      | None => Err ENOENT
      end
  | Ok (File _) => Err ENOTDIR
  | Err e => Err e
  end.
Proof. apply walk_snoc. Qed.

Lemma lookup_path_nil (fs : tree) :
  lookup_path fs [] = match fs !! [] with Some n => Ok n | None => Err ENOENT end.
Proof. done. Qed.

Lemma lookup_path_Ok (fs : tree) p n :
  lookup_path fs p = Ok n → fs !! p = Some n.
Proof.
  destruct p as [|c p _] using rev_ind.
  - rewrite lookup_path_nil. by destruct (fs !! []); intros [= ->].
  - rewrite lookup_path_snoc. destruct (lookup_path fs p) as [[]|]; [done| |done].
    by destruct (fs !! (p ++ [c])); intros [= ->].
Qed.

Lemma lookup_path_parent (fs : tree) p c n :
  lookup_path fs (p ++ [c]) = Ok n → lookup_path fs p = Ok Dir.
Proof.
  rewrite lookup_path_snoc. by destruct (lookup_path fs p) as [[]|].
Qed.

(** A walk only looks at the prefixes of its target. *)
Lemma lookup_path_ext (fs1 fs2 : tree) p :
  (∀ q, q `prefix_of` p → fs1 !! q = fs2 !! q) →
  lookup_path fs1 p = lookup_path fs2 p.
Proof.
  induction p as [|c p IH] using rev_ind; intros H.
  - rewrite !lookup_path_nil. by rewrite H.
  - rewrite !lookup_path_snoc, IH, H; [done..|].
    intros q Hq. apply H. by apply prefix_app_r.
Qed.

Lemma prefix_snoc_inv {A} (q p : list A) c :
  q `prefix_of` p ++ [c] → q `prefix_of` p ∨ q = p ++ [c].
Proof.
  intros [k Hk]. destruct k as [|x k _] using rev_ind.
  - right. by rewrite app_nil_r in Hk.
  - left. rewrite (assoc_L (++)) in Hk. apply app_inj_tail in Hk as [-> _].
    by apply prefix_app_r.
Qed.

Lemma snoc_not_prefix {A} (p : list A) c : ¬ (p ++ [c]) `prefix_of` p.
Proof. intros H%prefix_length. rewrite length_app in H. simpl in H. lia. Qed.

Lemma mkdir_spec (p : list string) (fs fs' : tree) (err : option errno) :
  mkdir p fs = (fs', err) →
  match err with
  | None => fs' = <[p := Dir]> fs ∧ fs !! p = None
            ∧ lookup_path fs (parent p) = Ok Dir
  | Some _ => fs' = fs
  end.
Proof.
  unfold mkdir. destruct (lookup_path fs p) as [|e] eqn:Hp.
  { by intros [= <- <-]. }
  destruct e; try by intros [= <- <-].
  destruct (lookup_path fs (parent p)) as [[]|] eqn:Hpar;
    intros [= <- <-]; [done| |done].
  split_and!; [done| |done].
  destruct p as [|c p _] using rev_ind.
  - rewrite lookup_path_nil in Hp. by destruct (fs !! []).
  - rewrite parent_snoc in Hpar. rewrite lookup_path_snoc, Hpar in Hp.
    by destruct (fs !! (p ++ [c])).
Qed.

Lemma mkdir_all_spec (rp : list string) (fs fs' : tree) (err : option errno) :
  mkdir_all rp fs = (fs', err) →
  only_adds_dirs (rev rp) fs fs'
  ∧ (err = None → lookup_path fs' (rev rp) = Ok Dir).
Proof.
  revert fs fs' err. induction rp as [|c rp IH]; intros fs fs' err.
  - cbn [mkdir_all]. destruct (lookup_path fs (rev [])) as [[]|e] eqn:Hp.
    + intros [= <- <-]. split; [by left|done].
    + intros [= <- <-]. split; [by left|done].
    + intros Hm. apply mkdir_spec in Hm. destruct err.
      * subst. split; [by left|done].
      * destruct Hm as (-> & Hnone & _). split.
        -- intros q. destruct (decide (q = [])) as [->|].
           ++ right. by rewrite lookup_insert_eq.
           ++ left. by rewrite lookup_insert_ne.
        -- intros _. rewrite lookup_path_nil. by rewrite lookup_insert_eq.
  - cbn [mkdir_all]. destruct (lookup_path fs (rev (c :: rp))) as [[]|e] eqn:Hp.
    + intros [= <- <-]. split; [by left|done].
    + intros [= <- <-]. split; [by left|done].
    + destruct (mkdir_all rp fs) as [fs1 [e1|]] eqn:Hrec;
        apply IH in Hrec as [Hframe Hdir].
      { intros [= <- <-]. split; [|done]. intros q.
        destruct (Hframe q) as [|(? & ? & ?)]; [by left|right].
        split_and!; [done..|]. simpl. by apply prefix_app_r. }
      specialize (Hdir eq_refl).
      assert (only_adds_dirs (rev (c :: rp)) fs fs1) as Hframe1.
      { intros q. destruct (Hframe q) as [|(? & ? & ?)]; [by left|right].
        split_and!; [done..|]. simpl. by apply prefix_app_r. }
      destruct (mkdir (rev (c :: rp)) fs1) as [fs2 [e2|]] eqn:Hmk;
        apply mkdir_spec in Hmk.
      * subst fs2.
        destruct (lookup_path fs1 (rev (c :: rp))) as [[]|] eqn:Hl;
          intros [= <- <-]; done.
      * destruct Hmk as (-> & Hnone & _). intros [= <- <-]. split.
        -- intros q. destruct (decide (q = rev (c :: rp))) as [->|Hq].
           ++ right. rewrite lookup_insert_eq. split_and!; [|done..].
              destruct (Hframe1 (rev (c :: rp))) as [<-|(? & _)]; done.
           ++ rewrite lookup_insert_ne by done. apply Hframe1.
        -- intros _. simpl. rewrite lookup_path_snoc.
           rewrite (lookup_path_ext _ fs1).
           ++ rewrite Hdir. by rewrite lookup_insert_eq.
           ++ intros q Hq. rewrite lookup_insert_ne; [done|].
              intros <-. simpl in Hq. by apply snoc_not_prefix in Hq.
Qed.

Lemma write_file_spec (p : list string) (data : string) (fs fs' : tree) (err : option errno) :
  write_file p data fs = (fs', err) →
  match err with
  | None => fs' = <[p := File data]> fs
            ∧ (∀ q c, p = q ++ [c] → lookup_path fs q = Ok Dir)
  | Some _ => fs' = fs
  end.
Proof.
  unfold write_file. destruct (lookup_path fs p) as [[]|e] eqn:Hp.
  - intros [= <- <-]. split; [done|]. intros q c ->.
    by eapply lookup_path_parent.
  - by intros [= <- <-].
  - destruct e; try by intros [= <- <-].
    destruct (lookup_path fs (parent p)) as [[]|] eqn:Hpar;
      intros [= <- <-]; [done| |done].
    split; [done|]. intros q c ->. by rewrite parent_snoc in Hpar.
Qed.

Lemma rename_file_spec (old new : list string) (data : string) (fs fs' : tree) (err : option errno) :
  lookup_path fs old = Ok (File data) →
  rename old new fs = (fs', err) →
  match err with
  | None => fs' = <[new := File data]> (delete old fs)
            ∧ lookup_path fs (parent new) = Ok Dir
  | Some _ => fs' = fs
  end.
Proof.
  intros Hold. unfold rename. rewrite Hold.
  destruct (lookup_path fs (parent new)) as [[]|]; try by intros [= <- <-].
  destruct (fs !! new) as [[]|]; by intros [= <- <-].
Qed.

Lemma rename_failure (old new : list string) (fs fs' : tree) (e : errno) :
  rename old new fs = (fs', Some e) → fs' = fs.
Proof.
  unfold rename. destruct (lookup_path fs old) as [src|]; [|by intros [= <-]].
  destruct (lookup_path fs (parent new)) as [[]|]; try by intros [= <-].
  destruct src, (fs !! new) as [[]|]; try by intros [= <-].
  all: repeat case_decide; by intros [= <-].
Qed.

Lemma os_rename_file_spec (old new : list string) (data : string)
    (fs fs' : tree) (err : option errno) :
  lookup_path fs old = Ok (File data) →
  os_rename false old new fs = (fs', err) →
  match err with
  | None => fs' = <[new := File data]> (delete old fs)
            ∧ lookup_path fs (parent new) = Ok Dir
  | Some _ => fs' = fs
  end.
Proof.
  intros Hold. unfold os_rename.
  destruct (lookup_path fs new) as [[]|] eqn:Hnew;
    try by apply rename_file_spec.
  rewrite Hold. rewrite bool_decide_true; [by intros [= <- <-]|].
  intros ->. congruence.
Qed.

Lemma os_rename_failure (same : bool) (old new : list string)
    (fs fs' : tree) (e : errno) :
  os_rename same old new fs = (fs', Some e) → fs' = fs.
Proof.
  unfold os_rename.
  destruct (lookup_path fs new) as [[]|]; try by apply rename_failure.
  destruct (lookup_path fs old); [|by intros [= <-]].
  destruct (same || _); [by intros [= <-]|apply rename_failure].
Qed.

Lemma length_app (a b : string) :
  String.length (a +:+ b) = String.length a + String.length b.
Proof. induction a as [|c a IH]; [done|]. rewrite app_cons. simpl. by rewrite IH. Qed.

Lemma is_name_suffix n s :
  is_elem n = true → sep_free s = true → 2 ≤ String.length s →
  is_name (n +:+ s) = true.
Proof.
  intros (Hn & _ & Hfree)%is_elem_spec Hs Hlen. apply is_name_spec.
  assert (3 ≤ String.length (n +:+ s)) as Hl.
  { rewrite length_app. destruct n; [done|]. simpl. lia. }
  split_and!; try (intros Heq; rewrite Heq in Hl; simpl in Hl; lia).
  by rewrite sep_free_app, Hfree, Hs.
Qed.

Lemma render_snoc r l n :
  l ≠ [] → render r (l ++ [n]) = render r l +:+ "/" +:+ n.
Proof.
  intros Hl. unfold render. destruct r.
  - by rewrite join_snoc, app_assoc.
  - rewrite join_snoc by done. by destruct l.
Qed.

Section resolve_facts.
Variable cwd : list string.

Lemma resolve_step_name at_ n :
    is_name n = true → resolve_step at_ n = n :: at_.
  Proof.
    intros (? & ? & ? & _)%is_name_spec. unfold resolve_step.
    by repeat case_decide.
  Qed.

Lemma resolve_app a n :
    a ≠ "" → is_name n = true →
    resolve cwd (a +:+ "/" +:+ n) = resolve cwd a ++ [n].
  Proof.
    intros Ha Hn. unfold resolve.
    rewrite has_sep_prefix_app, split_app, fold_left_app by done.
    rewrite split_sep_free by (by apply is_name_spec in Hn as (_ & _ & _ & ?)).
    simpl. by rewrite resolve_step_name.
  Qed.

Lemma resolve_render_snoc r out n :
    clean_out r out = true → is_name n = true →
    resolve cwd (render r (rev out ++ [n]))
    = resolve cwd (render r (rev out)) ++ [n].
  Proof.
    intros Hout Hn. destruct out as [|x out].
    - pose proof (is_name_spec n) as [(_ & _ & _ & Hfree) _]; [done|].
      unfold resolve. destruct r; simpl.
      + rewrite app_empty_l, split_sep_free by done. simpl.
        by rewrite resolve_step_name.
      + rewrite (is_elem_no_sep_prefix n) by (by apply is_name_elem).
        rewrite split_sep_free by done. simpl.
        by rewrite resolve_step_name.
    - rewrite render_snoc.
      + apply resolve_app; [|done]. by apply render_nonempty.
      + simpl. by destruct (rev out).
  Qed.

Lemma resolve_snoc_nonempty r out n :
    clean_out r out = true → is_name n = true →
    resolve cwd (render r (rev out ++ [n])) ≠ [].
  Proof.
    intros ??. rewrite resolve_render_snoc by done.
    by destruct (resolve cwd (render r (rev out))).
  Qed.
End resolve_facts.

(** *** Directory listings *)

Lemma child_name_Some (p k : list string) (n : string) :
  child_name p k = Some n ↔ k = p ++ [n].
Proof.
  unfold child_name. split.
  - destruct (rev k) as [|c rk] eqn:Hk; [done|].
    case_decide as Hp; [|done]. intros [= ->].
    rewrite <-(rev_involutive k), Hk. simpl. by rewrite Hp.
  - intros ->. rewrite rev_unit. rewrite decide_True; [done|].
    apply rev_involutive.
Qed.

Lemma elem_of_entries (fs : tree) (p : list string) (n : string) :
  n ∈ entries fs p ↔ is_Some (fs !! (p ++ [n])).
Proof.
  unfold entries. rewrite merge_sort_Permutation, list_elem_of_omap. split.
  - intros (k & Hk & ->%child_name_Some).
    apply list_elem_of_fmap in Hk as ([k' x] & -> & Hkx).
    apply elem_of_map_to_list in Hkx. by exists x.
  - intros [x Hx]. exists (p ++ [n]). split; [|by apply child_name_Some].
    apply list_elem_of_fmap. exists (p ++ [n], x). split; [done|].
    by apply elem_of_map_to_list.
Qed.

Lemma NoDup_omap_inj {A B} (f : A → option B) (l : list A) :
  (∀ x y z, f x = Some z → f y = Some z → x = y) →
  NoDup l → NoDup (omap f l).
Proof.
  intros Hinj. induction 1 as [|x l Hx _ IH]; simpl; [constructor|].
  destruct (f x) as [z|] eqn:Hz; [|done].
  constructor; [|done]. intros (y & Hy & Hfy)%list_elem_of_omap.
  by rewrite (Hinj _ _ _ Hz Hfy) in Hx.
Qed.

Lemma NoDup_entries (fs : tree) (p : list string) : NoDup (entries fs p).
Proof.
  unfold entries. rewrite merge_sort_Permutation.
  apply NoDup_omap_inj; [|apply NoDup_fst_map_to_list].
  intros k1 k2 n ->%child_name_Some ->%child_name_Some. done.
Qed.

Lemma remove_tree_lookup (fs : tree) (p q : list string) :
  remove_tree p fs !! q = if decide (p `prefix_of` q) then None else fs !! q.
Proof.
  unfold remove_tree. case_decide as Hp.
  - apply map_lookup_filter_None. right. intros x _. simpl. by intros [].
  - destruct (fs !! q) as [x|] eqn:Hq.
    + by apply map_lookup_filter_Some.
    + apply map_lookup_filter_None. by left.
Qed.

Lemma empty_tree_lookup (fs : tree) (p q : list string) :
  empty_tree p fs !! q
  = if decide (p `prefix_of` q ∧ q ≠ p) then None else fs !! q.
Proof.
  unfold empty_tree. case_decide as Hp.
  - apply map_lookup_filter_None. right. intros x _. simpl. tauto.
  - destruct (fs !! q) as [x|] eqn:Hq.
    + apply map_lookup_filter_Some. split; [done|]. simpl. intros ?.
      destruct (decide (q = p)); tauto.
    + apply map_lookup_filter_None. by left.
Qed.

End os_facts.

(** ** The paths of the driver *)

Module driver_paths.
Import strings_go strings_facts filepath filepath_facts os os_facts driver.

Lemma coll_base_nonempty d C : C ≠ "" → coll_base d C ≠ "".
Proof.
  intros ?. unfold coll_base. case_decide; [done|].
  by intros [? _]%app_eq_empty.
Qed.

Lemma Join_coll d C : C ≠ "" → Join [d; C] = Clean (coll_base d C).
Proof.
  intros ?. unfold coll_base. simpl. repeat case_decide; done.
Qed.

Lemma Join_coll_res d C R :
  C ≠ "" → Join [d; C; R] = Clean (coll_base d C +:+ "/" +:+ R).
Proof.
  intros ?. unfold coll_base. cbn [Join]. repeat case_decide; try done.
  f_equal. cbn [join]. by rewrite !app_assoc.
Qed.

Lemma Join_pair x n : x ≠ "" → Join [x; n] = Clean (x +:+ "/" +:+ n).
Proof. intros ?. cbn [Join]. by case_decide. Qed.

Lemma coll_paths_intro cwd d C R :
  C ≠ "" → is_name R = true →
  coll_paths cwd d C R (resolve cwd (Join [d; C])).
Proof.
  intros HC HR.
  pose proof (coll_base_nonempty d C HC) as Ha.
  set (a := coll_base d C) in *. set (r := has_sep_prefix a).
  set (out := elems r a []).
  assert (clean_out r out = true) as Hout by (by apply elems_out).
  assert (Join [d; C] = render r (rev out)) as Hdir.
  { rewrite Join_coll by done. by apply Clean_elems. }
  assert (∀ n, is_name n = true →
    Join [Join [d; C]; n] = render r (rev out ++ [n])) as Hentry.
  { intros n Hn. rewrite Join_pair by (rewrite Join_coll by done; apply Clean_nonempty).
    rewrite Join_coll by done. rewrite Clean_Clean_l by done.
    by apply Clean_name. }
  assert (is_name (R +:+ ".json") = true) as HRj.
  { apply is_name_suffix; [by apply is_name_elem|done|simpl; lia]. }
  assert (is_name (R +:+ ".json.tmp") = true) as HRjt.
  { apply is_name_suffix; [by apply is_name_elem|done|simpl; lia]. }
  assert (Join [d; C; R] = render r (rev out ++ [R])) as Hrec.
  { rewrite Join_coll_res by done. by apply Clean_name. }
  split.
  - done.
  - rewrite Hdir. by apply render_nonempty.
  - intros n Hn. rewrite Hentry, Hdir by done. by apply resolve_render_snoc.
  - rewrite Hentry, Hdir by done. by apply resolve_render_snoc.
  - rewrite Hentry by done. change (rev out ++ [R +:+ ".json"]) with
      (rev out ++ rev [R +:+ ".json"]). rewrite <-rev_app_distr.
    apply render_nonempty. simpl. by apply clean_out_push.
  - rewrite Hentry, Hdir by done. rewrite render_snoc_app, app_assoc.
    by apply resolve_render_snoc.
  - rewrite Hrec, Hdir. by apply resolve_render_snoc.
  - rewrite Hrec. change (rev out ++ [R]) with (rev out ++ rev [R]).
    rewrite <-rev_app_distr. apply render_nonempty. simpl.
    by apply clean_out_push.
  - rewrite Hrec, Hentry by done. apply render_snoc_app.
Qed.

(** *** Cleaning the right part of a path first *)

Lemma clean_step_skip (r : bool) (out : list string) (e : string) :
  e = "" ∨ e = "." → clean_step r out e = out.
Proof. intros [-> | ->]; done. Qed.

Lemma clean_step_pop (r : bool) (out : list string) (top : string) :
  is_name top = true → clean_step r (top :: out) ".." = out.
Proof.
  intros (_ & _ & ? & _)%is_name_spec. unfold clean_step. simpl.
  by rewrite decide_False.
Qed.

Lemma fold_clean_out (r : bool) (l out : list string) :
  Forall (λ x, sep_free x = true) l → clean_out r out = true →
  clean_out r (fold_left (clean_step r) l out) = true.
Proof.
  intros Hl. revert out. induction Hl as [|e l He _ IH]; intros out Hout;
    [done|].
  simpl. by apply IH, clean_step_out.
Qed.

Lemma clean_step_keep_dotdot (r : bool) (out : list string) :
  clean_step r (".." :: out) ".." = ".." :: ".." :: out.
Proof. reflexivity. Qed.

(** Folding the relative normal form of [l] gives what folding [l]
    gives, from any state and in either mode. *)
Lemma refold_relative (r : bool) (l s : list string) :
  Forall (λ x, sep_free x = true) l →
  fold_left (clean_step r) (rev (fold_left (clean_step false) l [])) s
  = fold_left (clean_step r) l s.
Proof.
  induction l as [|e l IH] using rev_ind; intros Hl; [done|].
  apply Forall_app in Hl as [Hl He]. inversion He as [|? ? Hfree _]; subst.
  specialize (IH Hl). rewrite !fold_left_app. cbn [fold_left].
  set (out := fold_left (clean_step false) l []) in *.
  assert (clean_out false out = true) as Hout.
  { by apply fold_clean_out. }
  rewrite <-IH.
  destruct (decide (e = "" ∨ e = ".")) as [Hskip|Hkeep].
  { by rewrite !clean_step_skip. }
  destruct (decide (e = "..")) as [->|Hname].
  - destruct out as [|top rest]; [done|].
    destruct (decide (top = "..")) as [->|Htop].
    + rewrite clean_step_keep_dotdot.
      change (rev (".." :: ".." :: rest)) with (rev (".." :: rest) ++ [".."]).
      by rewrite fold_left_app.
    + assert (is_name top = true) as Hn.
      { apply is_name_spec. apply clean_out_head, is_elem_spec in Hout.
        tauto. }
      rewrite (clean_step_pop false) by done.
      cbn [rev]. rewrite fold_left_app. cbn [fold_left].
      rewrite (clean_step_name _ _ top) by done.
      by rewrite clean_step_pop.
  - assert (is_name e = true) as Hn.
    { apply is_name_spec. split_and!; try done; intros ->; apply Hkeep; auto. }
    rewrite (clean_step_name false) by done. cbn [rev].
    by rewrite fold_left_app.
Qed.

Lemma split_render_relative (out : list string) :
  clean_out false out = true → out ≠ [] →
  split (render false (rev out)) = rev out.
Proof.
  intros Hout Hne. unfold render.
  destruct (rev out) as [|y l] eqn:Hrev.
  { by apply rev_nil_inv in Hrev. }
  apply split_join; [done|]. rewrite <-Hrev. by eapply clean_out_sep_free.
Qed.

Lemma elems_trailing_sep (r : bool) (x : string) (s : list string) :
  elems r (x +:+ "/" +:+ "") s = elems r x s.
Proof. by rewrite elems_app. Qed.

Lemma Clean_trailing_sep (x : string) : x ≠ "" → Clean (x +:+ "/" +:+ "") = Clean x.
Proof.
  intros Hx. rewrite !Clean_elems; [|done|by intros [? _]%app_eq_empty].
  by rewrite has_sep_prefix_app, elems_trailing_sep.
Qed.

Lemma Clean_Clean_r (a c : string) :
  a ≠ "" → c ≠ "" → has_sep_prefix c = false →
  Clean (a +:+ "/" +:+ Clean c) = Clean (a +:+ "/" +:+ c).
Proof.
  intros Ha Hc Hrel.
  rewrite (Clean_elems (a +:+ _)), (Clean_elems (a +:+ "/" +:+ c));
    try (by intros [? _]%app_eq_empty).
  rewrite !has_sep_prefix_app, !elems_app by done. do 2 f_equal.
  rewrite (Clean_elems c), Hrel by done.
  generalize (elems (has_sep_prefix a) a []). intros s.
  pose proof (elems_out false c [] eq_refl) as Hout.
  pose proof (refold_relative (has_sep_prefix a) (split c) s
                (split_all_sep_free c)) as Hre.
  fold (elems false c []) in Hre. fold (elems (has_sep_prefix a) c s) in Hre.
  rewrite <-Hre. unfold elems at 1.
  destruct (elems false c []) as [|x out] eqn:Hc'; [done|].
  by rewrite split_render_relative.
Qed.

(** [Delete] with an empty resource name acts on the directory of the
    collection when the collection name is a relative path. *)
Lemma Join_empty_resource (d C : string) :
  d ≠ "" → C ≠ "" → has_sep_prefix C = false →
  Join [d; Join [C; ""]] = Join [d; C].
Proof.
  intros Hd HC Hrel.
  assert (Join [C; ""] = Clean (C +:+ "/" +:+ "")) as ->.
  { cbn [Join]. by rewrite decide_False. }
  rewrite !Join_pair by done.
  rewrite Clean_Clean_r; [|done|by intros [? _]%app_eq_empty|].
  - trans (Clean ((d +:+ "/" +:+ C) +:+ "/" +:+ "")).
    + f_equal. by rewrite !app_assoc.
    + apply Clean_trailing_sep. by intros [? _]%app_eq_empty.
  - by rewrite has_sep_prefix_app.
Qed.

Lemma clean_step_keeps_dotdot (out : list string) (e : string) :
  ".." ∈ out → ".." ∈ clean_step false out e.
Proof.
  intros Hin. unfold clean_step. repeat case_decide; subst; try done.
  - destruct out as [|top rest]; [by apply elem_of_nil in Hin|].
    case_decide; [by right|].
    apply elem_of_cons in Hin as [?|?]; [congruence|done].
  - by right.
Qed.

Lemma fold_rooted_relative (l : list string) :
  ".." ∉ fold_left (clean_step false) l [] →
  fold_left (clean_step true) l [] = fold_left (clean_step false) l [].
Proof.
  induction l as [|e l IH] using rev_ind; [done|].
  rewrite !fold_left_app. cbn [fold_left]. intros Hnot.
  rewrite IH by (intros ?; by apply Hnot, clean_step_keeps_dotdot).
  set (out := fold_left (clean_step false) l []) in *.
  unfold clean_step in *. repeat case_decide; try done.
  destruct out; [|done]. destruct Hnot. by left.
Qed.

(** A path that does not climb is cleaned alike as a rooted and as a
    relative path. *)
Lemma elems_climbs (c : string) :
  climbs c = false → elems true c [] = elems false c [].
Proof.
  intros H%bool_decide_eq_false. by apply fold_rooted_relative.
Qed.

Lemma Clean_Clean_r_rooted (a c : string) :
  a ≠ "" → has_sep_prefix c = true → climbs c = false →
  Clean (a +:+ "/" +:+ Clean c) = Clean (a +:+ "/" +:+ c).
Proof.
  intros Ha Hroot Hclimb.
  assert (c ≠ "") as Hc by (by intros ->).
  rewrite (Clean_elems (a +:+ _)), (Clean_elems (a +:+ "/" +:+ c));
    try (by intros [? _]%app_eq_empty).
  rewrite !has_sep_prefix_app, !elems_app by done. do 2 f_equal.
  rewrite (Clean_elems c), Hroot, elems_climbs by done.
  generalize (elems (has_sep_prefix a) a []). intros s.
  pose proof (elems_out false c [] eq_refl) as Hout.
  pose proof (refold_relative (has_sep_prefix a) (split c) s
                (split_all_sep_free c)) as Hre.
  fold (elems false c []) in Hre. fold (elems (has_sep_prefix a) c s) in Hre.
  rewrite <-Hre. unfold render.
  change ("/" +:+ join (rev (elems false c [])))
    with ("" +:+ "/" +:+ join (rev (elems false c []))).
  rewrite elems_app. change (elems (has_sep_prefix a) "" s) with s.
  destruct (elems false c []) as [|x out] eqn:Hc'; [done|].
  unfold elems at 1.
  pose proof (split_render_relative (x :: out) Hout) as Hsp.
  unfold render in Hsp. destruct (rev (x :: out)) eqn:Hrev.
  { by apply rev_nil_inv in Hrev. }
  by rewrite Hsp.
Qed.

(** [Delete] with an empty resource name acts on the directory of the
    collection unless the collection name is rooted and climbs. *)
Lemma Join_empty_resource_any (d C : string) :
  d ≠ "" → C ≠ "" → has_sep_prefix C = false ∨ climbs C = false →
  Join [d; Join [C; ""]] = Join [d; C].
Proof.
  intros Hd HC Hcond.
  destruct (has_sep_prefix C) eqn:Hrel; [|by apply Join_empty_resource].
  destruct Hcond as [?|Hclimb]; [done|].
  assert (Join [C; ""] = Clean (C +:+ "/" +:+ "")) as ->.
  { cbn [Join]. by rewrite decide_False. }
  rewrite !Join_pair by done. rewrite Clean_trailing_sep by done.
  by apply Clean_Clean_r_rooted.
Qed.

Lemma Join_empty_both (d : string) :
  Clean d = d → Join [d; Join [""; ""]] = d.
Proof.
  intros Hd. assert (d ≠ "") as Hne.
  { rewrite <-Hd. apply Clean_nonempty. }
  change (Join [""; ""]) with "". rewrite Join_pair by done.
  by rewrite Clean_trailing_sep.
Qed.

(** What [Join] returns is empty or clean. *)
Lemma Join_clean (l : list string) :
  Join l = "" ∨ ∃ r out, clean_out r out = true ∧ Join l = render r (rev out).
Proof.
  induction l as [|e l IH]; [by left|]. cbn [Join]. case_decide; [done|].
  right. eexists _, _. split; [|apply Clean_elems].
  - by apply elems_out.
  - destruct l; [done|]. by intros [? _]%app_eq_empty.
Qed.

Lemma Join_suffixed (l : list string) :
  ∃ r out n, clean_out r out = true ∧ is_name n = true
    ∧ Join l +:+ ".json" = render r (rev out ++ [n]).
Proof.
  destruct (Join_clean l) as [->|(r & out & Hout & ->)].
  { by exists false, [], ".json". }
  destruct out as [|x out].
  - destruct r; [by exists true, [], ".json"|by exists false, [], "..json"].
  - exists r, out, (x +:+ ".json"). split_and!.
    + by eapply clean_out_tail.
    + apply is_name_suffix; [by eapply clean_out_head|done|simpl; lia].
    + simpl. apply render_snoc_app.
Qed.

Lemma last_split_render (r : bool) (out : list string) (n : string) :
  clean_out r (n :: out) = true →
  last (split (render r (rev out ++ [n]))) = Some n.
Proof.
  intros Hout.
  assert (split (join (rev out ++ [n])) = rev out ++ [n]) as Hsp.
  { apply split_join; [by destruct (rev out)|].
    by apply (clean_out_sep_free r (n :: out)). }
  unfold render. destruct r.
  - rewrite app_cons, app_empty_l.
    change (split (String "/" (join (rev out ++ [n]))))
      with ("" :: split (join (rev out ++ [n]))).
    rewrite Hsp. rewrite last_cons, last_snoc. done.
  - destruct (rev out ++ [n]) as [|y l] eqn:Hl; [by destruct (rev out)|].
    rewrite Hsp, <-Hl. apply last_snoc.
Qed.

Lemma endsWithDot_name (r : bool) (out : list string) (n : string) :
  clean_out r out = true → is_name n = true →
  endsWithDot (render r (rev out ++ [n])) = false.
Proof.
  intros Hout Hn. unfold endsWithDot. apply bool_decide_eq_false.
  rewrite last_split_render by (by apply clean_out_push).
  intros [= ->]. by apply is_name_spec in Hn as (_ & ? & _).
Qed.

Lemma endsWithDotDot_name (r : bool) (out : list string) (n : string) :
  clean_out r out = true → is_name n = true →
  endsWithDotDot (render r (rev out ++ [n])) = false.
Proof.
  intros Hout Hn. unfold endsWithDotDot. apply bool_decide_eq_false.
  rewrite last_split_render by (by apply clean_out_push).
  intros [= ->]. by apply is_name_spec in Hn as (_ & _ & ? & _).
Qed.

Lemma endsWithDotDot_not_dot (path : string) :
  endsWithDotDot path = true → endsWithDot path = false.
Proof.
  unfold endsWithDotDot, endsWithDot.
  intros H%bool_decide_eq_true. apply bool_decide_eq_false. by rewrite H.
Qed.

End driver_paths.

(** ** The driver's operations *)

Module driver_facts.
Import strings_go strings_facts filepath filepath_facts.
Import os os_facts driver driver_paths.

Section operations.
Variable cwd : list string.
Variable Value : Type.
Variable MarshalIndent : Value → option string.
Variable Unmarshal : string → option Value.

Lemma getOrCreateMutex_spec (c : string) (d : Driver) (w : World)
    (m : Mutex) (d1 : Driver) (w1 : World) :
  getOrCreateMutex c d w = (m, d1, w1) →
  dir d1 = dir d ∧ files w1 = files w ∧ mutexes d1 !! c = Some m
  ∧ (∀ c' m', mutexes d !! c' = Some m' → mutexes d1 !! c' = Some m').
Proof.
  unfold getOrCreateMutex. destruct (mutexes d !! c) as [m0|] eqn:Hc.
  - intros [= <- <- <-]. done.
  - intros [= <- <- <-]. simpl. split_and!; [done..| |].
    + by rewrite lookup_insert_eq.
    + intros c' m' Hc'. rewrite lookup_insert_ne; [done|]. by intros ->; simplify_eq.
Qed.

Lemma Write_unfold (C R : string) (v : Value) (d : Driver) (w : World)
    (P : list string) :
  C ≠ "" → is_name R = true → coll_paths cwd (dir d) C R P →
  ∃ m d1 w1,
    getOrCreateMutex C d w = (m, d1, w1) ∧
    Write cwd Value MarshalIndent C R v d w =
    match mkdir_all (rev P) (files w) with
    | (fs1, Some e) => (Some (PathError e), d1, set_files fs1 w1)
    | (fs1, None) =>
        match MarshalIndent v with
        | None => (Some MarshalError, d1, set_files fs1 w1)
        | Some b =>
            match write_file (P ++ [R +:+ ".json.tmp"]) (b +:+ newline) fs1
            with
            | (fs2, Some e) => (Some (PathError e), d1, set_files fs2 w1)
            | (fs2, None) =>
                let '(fs3, err) :=
                  os_rename false (P ++ [R +:+ ".json.tmp"])
                    (P ++ [R +:+ ".json"]) fs2
                in (PathError <$> err, d1, set_files fs3 w1)
            end
        end
    end.
Proof.
  intros HC HR HP.
  assert (R ≠ "") as HRne by (by apply is_name_spec in HR as (? & _)).
  destruct (getOrCreateMutex C d w) as [[m d1] w1] eqn:Hg.
  exists m, d1, w1. split; [done|].
  unfold Write. rewrite !decide_False by done. rewrite Hg.
  apply getOrCreateMutex_spec in Hg as (Hdir & Hfiles & _).
  rewrite Hdir, Hfiles.
  destruct HP as [Hd Hdne _ Hfin Hfinne Htemp _ _ _].
  assert (Join [Join [dir d; C]; R +:+ ".json"] +:+ ".tmp" ≠ "") as Htmp.
  { by intros [? _]%app_eq_empty. }
  unfold MkdirAll, WriteFile, Rename.
  rewrite (decide_False (P := Join [dir d; C] = "")) by done.
  rewrite Hd.
  destruct (mkdir_all (rev P) (files w)) as [fs1 [e|]]; [done|].
  destruct (MarshalIndent v) as [b|]; [|done].
  rewrite (decide_False (P := _ +:+ ".tmp" = "")) by done.
  rewrite Htemp.
  destruct (write_file _ _ fs1) as [fs2 [e|]]; [done|].
  rewrite decide_False by (by intros [?|?]).
  rewrite bool_decide_false.
  - by rewrite ?Htemp, Hfin.
  - intros Heq. apply (f_equal String.length) in Heq.
    rewrite length_app in Heq. simpl in Heq. lia.
Qed.

Lemma lookup_path_insert_ne (fs : tree) (k p : list string) (n : node) :
  ¬ k `prefix_of` p → lookup_path (<[k := n]> fs) p = lookup_path fs p.
Proof.
  intros Hk. apply lookup_path_ext. intros q Hq.
  rewrite lookup_insert_ne; [done|]. by intros ->.
Qed.

Lemma lookup_path_delete_ne (fs : tree) (k p : list string) :
  ¬ k `prefix_of` p → lookup_path (delete k fs) p = lookup_path fs p.
Proof.
  intros Hk. apply lookup_path_ext. intros q Hq.
  rewrite lookup_delete_ne; [done|]. by intros ->.
Qed.

Lemma lookup_path_child (fs : tree) (p : list string) (c : string) :
  lookup_path fs p = Ok Dir →
  lookup_path fs (p ++ [c]) =
  match fs !! (p ++ [c]) with Some n => Ok n | None => Err ENOENT end.
Proof. intros Hp. by rewrite lookup_path_snoc, Hp. Qed.

Lemma snoc_prefix_snoc {A} (p : list A) (a b : A) :
  (p ++ [a]) `prefix_of` (p ++ [b]) → a = b.
Proof. intros H%prefix_app_inv. by apply prefix_cons_inv_1 in H. Qed.

Lemma json_ne_tmp (R : string) : R +:+ ".json" ≠ R +:+ ".json.tmp".
Proof. by intros ?%(inj (String.app R)). Qed.

Lemma Write_ok (C R : string) (v : Value) (d d' : Driver) (w w' : World)
    (P : list string) :
  C ≠ "" → is_name R = true → coll_paths cwd (dir d) C R P →
  Write cwd Value MarshalIndent C R v d w = (None, d', w') →
  ∃ b, MarshalIndent v = Some b
    ∧ dir d' = dir d
    ∧ lookup_path (files w') P = Ok Dir
    ∧ files w' !! (P ++ [R +:+ ".json"]) = Some (File (b +:+ newline))
    ∧ files w' !! (P ++ [R +:+ ".json.tmp"]) = None.
Proof.
  intros HC HR HP.
  destruct (Write_unfold C R v d w P HC HR HP) as (m & d1 & w1 & Hg & ->).
  apply getOrCreateMutex_spec in Hg as (Hdir & _).
  destruct (mkdir_all (rev P) (files w)) as [fs1 [e|]] eqn:Hmk; [done|].
  apply mkdir_all_spec in Hmk as [_ HPdir]. specialize (HPdir eq_refl).
  rewrite rev_involutive in HPdir.
  destruct (MarshalIndent v) as [b|]; [|done].
  destruct (write_file _ _ fs1) as [fs2 [e|]] eqn:Hwr; [done|].
  apply write_file_spec in Hwr as [-> _].
  set (temp := P ++ [R +:+ ".json.tmp"]). set (final := P ++ [R +:+ ".json"]).
  set (data := b +:+ newline).
  assert (lookup_path (<[temp := File data]> fs1) temp = Ok (File data)) as Hsrc.
  { unfold temp. rewrite lookup_path_child.
    - by rewrite lookup_insert_eq.
    - rewrite lookup_path_insert_ne; [done|]. apply snoc_not_prefix. }
  destruct (os_rename false temp final _) as [fs3 [e|]] eqn:Hrn; [done|].
  apply (os_rename_file_spec _ _ data) in Hrn as [-> _]; [|done].
  intros [= <- <-]. exists b. simpl.
  assert (temp ≠ final) as Hne.
  { unfold temp, final. intros [=]%(inj (app P)). by eapply json_ne_tmp. }
  split_and!; [done..| | |].
  - rewrite lookup_path_insert_ne by apply snoc_not_prefix.
    rewrite lookup_path_delete_ne by apply snoc_not_prefix.
    by rewrite lookup_path_insert_ne by apply snoc_not_prefix.
  - by rewrite lookup_insert_eq.
  - rewrite lookup_insert_ne by done. by rewrite lookup_delete_eq.
Qed.

Lemma Write_failure_frame (C R : string) (v : Value) (d d' : Driver)
    (w w' : World) (P q : list string) (e : error) :
  C ≠ "" → is_name R = true → coll_paths cwd (dir d) C R P →
  Write cwd Value MarshalIndent C R v d w = (Some e, d', w') →
  (P ++ [R +:+ ".json"]) `prefix_of` q →
  files w' !! q = files w !! q.
Proof.
  intros HC HR HP HW Hq.
  destruct (Write_unfold C R v d w P HC HR HP) as (m & d1 & w1 & _ & Heq).
  rewrite Heq in HW. clear Heq.
  destruct (mkdir_all (rev P) (files w)) as [fs1 e1] eqn:Hmk.
  apply mkdir_all_spec in Hmk as [Hadds _]. rewrite rev_involutive in Hadds.
  assert (fs1 !! q = files w !! q) as H1.
  { destruct (Hadds q) as [|(_ & _ & HqP)]; [done|].
    exfalso. eapply snoc_not_prefix. by etrans. }
  destruct e1 as [e1|]; [by injection HW as <- <- <-|].
  destruct (MarshalIndent v) as [b|]; [|by injection HW as <- <- <-].
  assert (q ≠ P ++ [R +:+ ".json.tmp"]) as Hqt.
  { intros ->. by apply snoc_prefix_snoc, json_ne_tmp in Hq. }
  destruct (write_file _ _ fs1) as [fs2 e2] eqn:Hwr.
  apply write_file_spec in Hwr.
  assert (fs2 !! q = files w !! q) as H2.
  { destruct e2; [by subst|]. destruct Hwr as [-> _].
    by rewrite lookup_insert_ne. }
  destruct e2 as [e2|]; [by injection HW as <- <- <-|].
  destruct (os_rename _ _ _ fs2) as [fs3 [e3|]] eqn:Hrn; [|done].
  apply os_rename_failure in Hrn as ->. by injection HW as <- <- <-.
Qed.

Lemma Stat_lookup (fs : tree) (path : string) :
  path ≠ "" →
  Stat cwd path fs =
  match lookup_path fs (resolve cwd path) with
  | Ok n => Ok (mode_of n)
  | Err e => Err e
  end.
Proof. intros ?. unfold Stat. by rewrite decide_False. Qed.

(** Siblings fail alike: when one name of a directory cannot be reached
    for another reason than its absence, no name of it can. *)
Lemma lookup_path_sibling (fs : tree) (P : list string) (a b : string)
    (e : errno) :
  lookup_path fs (P ++ [a]) = Err e → e ≠ ENOENT →
  lookup_path fs (P ++ [b]) = Err e.
Proof.
  rewrite !lookup_path_snoc. destruct (lookup_path fs P) as [[]|]; try done.
  by destruct (fs !! (P ++ [a])); intros [= <-].
Qed.

Lemma lookup_path_sibling_absent (fs : tree) (P : list string) (a b : string)
    (n : node) :
  lookup_path fs (P ++ [a]) = Ok n →
  lookup_path fs (P ++ [b]) =
  match fs !! (P ++ [b]) with Some n => Ok n | None => Err ENOENT end.
Proof. intros H%lookup_path_parent. by apply lookup_path_child. Qed.

Lemma Read_suffixed (C R : string) (d : Driver) (w : World)
    (P : list string) :
  C ≠ "" → is_name R = true → coll_paths cwd (dir d) C R P →
  Read cwd Value Unmarshal C R d w =
  match lookup_path (files w) (P ++ [R +:+ ".json"]) with
  | Ok (File b) => decode Value Unmarshal b
  | Ok Dir => Err (PathError EISDIR)
  | Err e => Err (PathError e)
  end.
Proof.
  intros HC HR HP.
  assert (R ≠ "") as HRne by (by apply is_name_spec in HR as (? & _)).
  destruct HP as [_ _ _ Hfin Hfinne _ Hrec Hrecne Hsuf].
  unfold Read, stat, ReadFile. rewrite !decide_False by (by rewrite ?Hsuf).
  rewrite !Stat_lookup by (by rewrite ?Hsuf).
  rewrite Hsuf, Hfin, Hrec.
  destruct (lookup_path (files w) (P ++ [R])) as [n|e] eqn:Hbare.
  - rewrite (lookup_path_sibling_absent _ _ _ _ _ Hbare).
    by destruct (files w !! (P ++ [R +:+ ".json"])) as [[]|].
  - destruct (decide (e = ENOENT)) as [->|Hne].
    + simpl. by destruct (lookup_path (files w) (P ++ [R +:+ ".json"])) as [[]|].
    + rewrite (lookup_path_sibling _ _ _ _ _ Hbare Hne).
      unfold IsNotExist. by rewrite bool_decide_eq_false_2.
Qed.

End operations.

Section sequences.
Variable cwd : list string.
Variable Value : Type.
Variable MarshalIndent : Value → option string.
Variable Unmarshal : string → option Value.

Lemma Read_after_Write (C R : string) (doc : Value) (d d' : Driver)
    (w w' : World) :
  C ≠ "" → is_name R = true →
  representable Value MarshalIndent Unmarshal doc →
  Write cwd Value MarshalIndent C R doc d w = (None, d', w') →
  Read cwd Value Unmarshal C R d' w' = Ok doc
  ∧ Stat cwd (Join [Join [dir d; C]; R +:+ ".json"] +:+ ".tmp") (files w')
    = Err ENOENT.
Proof.
  intros HC HR (b & Hb & Hdec) HW.
  pose proof (coll_paths_intro cwd (dir d) C R HC HR) as HP.
  destruct (Write_ok cwd Value MarshalIndent C R doc d d' w w' _ HC HR HP HW)
    as (b' & Hb' & Hdir & HPdir & Hfinal & Htemp).
  assert (b' = b) as -> by congruence.
  split.
  - rewrite (Read_suffixed cwd Value Unmarshal C R d' w'
               (resolve cwd (Join [dir d; C])) HC HR)
      by (rewrite Hdir; exact HP).
    rewrite lookup_path_child, Hfinal by done.
    unfold decode. by rewrite Hdec.
  - rewrite Stat_lookup by (by intros [_ ?]%app_eq_empty).
    rewrite (cp_temp _ _ _ _ _ HP), lookup_path_child, Htemp by done. done.
Qed.

Lemma registry_le_refl (d : Driver) : registry_le d d.
Proof. by intros c m. Qed.

Lemma registry_le_trans (d1 d2 d3 : Driver) :
  registry_le d1 d2 → registry_le d2 d3 → registry_le d1 d3.
Proof. intros H12 H23 c m ?. by apply H23, H12. Qed.

Lemma getOrCreateMutex_registry (c : string) (d : Driver) (w : World) :
  registry_le d (getOrCreateMutex c d w).1.2.
Proof.
  destruct (getOrCreateMutex c d w) as [[m d1] w1] eqn:Hg.
  by apply getOrCreateMutex_spec in Hg as (_ & _ & _ & ?).
Qed.

Lemma Write_registry (C R : string) (v : Value) (d : Driver) (w : World) :
  registry_le d (Write cwd Value MarshalIndent C R v d w).1.2.
Proof.
  unfold Write. repeat case_decide; try apply registry_le_refl.
  pose proof (getOrCreateMutex_registry C d w) as Hle.
  destruct (getOrCreateMutex C d w) as [[m d1] w1]. simpl in Hle.
  destruct (MkdirAll _ _ _) as [fs1 [e|]]; [done|].
  destruct (MarshalIndent v); [|done].
  destruct (WriteFile _ _ _ _) as [fs2 [e|]]; [done|].
  by destruct (Rename _ _ _ _).
Qed.

Lemma Delete_registry (C R : string) (d : Driver) (w : World) :
  registry_le d (Delete cwd C R d w).1.2.
Proof.
  unfold Delete.
  pose proof (getOrCreateMutex_registry C d w) as Hle.
  destruct (getOrCreateMutex C d w) as [[m d1] w1]. simpl in Hle.
  destruct (stat _ _ _) as [[]|]; simpl; [| |done].
  - by destruct (RemoveAll _ _ _).
  - by destruct (RemoveAll _ _ _).
Qed.

Lemma step_registry (c : call Value) (d : Driver) (w : World) :
  registry_le d (step cwd Value MarshalIndent c d w).1.
Proof.
  destruct c as [C R v|C R|C|C R|C]; simpl; try apply registry_le_refl.
  - pose proof (Write_registry C R v d w).
    by destruct (Write _ _ _ _ _ _ _ _) as [[? ?] ?].
  - pose proof (Delete_registry C R d w).
    by destruct (Delete _ _ _ _ _) as [[? ?] ?].
  - pose proof (getOrCreateMutex_registry C d w).
    by destruct (getOrCreateMutex _ _ _) as [[? ?] ?].
Qed.

Lemma run_registry (calls : list (call Value)) (d : Driver) (w : World) :
  registry_le d (run cwd Value MarshalIndent calls d w).1.
Proof.
  revert d w. induction calls as [|c calls IH]; intros d w; simpl.
  - apply registry_le_refl.
  - pose proof (step_registry c d w) as Hstep.
    destruct (step _ _ _ c d w) as [d1 w1]. simpl in Hstep.
    eapply registry_le_trans; [exact Hstep|apply IH].
Qed.

Lemma getOrCreateMutex_registered (c : string) (d : Driver) (w : World)
    (m : Mutex) :
  mutexes d !! c = Some m → getOrCreateMutex c d w = (m, d, w).
Proof. intros H. unfold getOrCreateMutex. by rewrite H. Qed.

End sequences.

Section read_all.
Variable cwd : list string.

Lemma ReadFile_child (fs : tree) (path : string) (P : list string)
    (c : string) :
  path ≠ "" → resolve cwd path = P ++ [c] → lookup_path fs P = Ok Dir →
  ReadFile cwd path fs = entry_data fs P c.
Proof.
  intros Hne Hres HP. unfold ReadFile, entry_data.
  rewrite decide_False by done.
  rewrite Hres, lookup_path_child by done.
  by destruct (fs !! (P ++ [c])) as [[]|].
Qed.

Lemma read_records_cases (dir_ : string) (fs : tree) (P : list string)
    (names acc : list string) :
  (∀ n, n ∈ names → ReadFile cwd (Join [dir_; n]) fs = entry_data fs P n) →
  (∃ recs, Forall2 (λ n r, entry_data fs P n = Ok r) names recs
     ∧ read_records cwd dir_ fs names acc = (acc ++ recs, None))
  ∨ (∃ n e, n ∈ names ∧ entry_data fs P n = Err e
     ∧ read_records cwd dir_ fs names acc = ([], Some (PathError e))).
Proof.
  revert acc. induction names as [|x names IH]; intros acc Hread;
    cbn [read_records].
  - left. exists []. split; [constructor|]. by rewrite app_nil_r.
  - rewrite Hread by left.
    destruct (entry_data fs P x) as [r|e] eqn:Hx.
    + destruct (IH (acc ++ [r])) as [(recs & Hall & ->)|(n & e & ? & ? & ->)].
      * intros n ?. apply Hread. by right.
      * left. exists (r :: recs). split; [by constructor|].
        by rewrite <-(assoc_L (++)).
      * right. exists n, e. split_and!; [by right|done..].
    + right. exists x, e. split_and!; [by left|done..].
Qed.

(** [ReadAll] on an existing collection directory of a tree with proper
    names: the listing is read entry by entry. *)
Lemma ReadAll_unfold (C : string) (d : Driver) (w : World) :
  C ≠ "" → names_ok (files w) →
  lookup_path (files w) (resolve cwd (Join [dir d; C])) = Ok Dir →
  ReadAll cwd C d w
  = read_records cwd (Join [dir d; C]) (files w)
      (entries (files w) (resolve cwd (Join [dir d; C]))) []
  ∧ ∀ n, n ∈ entries (files w) (resolve cwd (Join [dir d; C])) →
      ReadFile cwd (Join [Join [dir d; C]; n]) (files w)
      = entry_data (files w) (resolve cwd (Join [dir d; C])) n.
Proof.
  intros HC Hok Hdir.
  pose proof (coll_paths_intro cwd (dir d) C "x" HC eq_refl) as HP.
  destruct HP as [_ Hne Hentry _ _ _ _ _ _].
  split.
  - unfold ReadAll, stat, ReadDir. rewrite !decide_False by done.
    rewrite Stat_lookup by done. by rewrite Hdir.
  - intros n [x Hx]%elem_of_entries.
    assert (is_name n = true) as Hn.
    { apply Hok, Forall_app in Hx as [_ Hx]. by inversion Hx. }
    apply ReadFile_child; [|by apply Hentry|done].
    rewrite Join_pair by done. apply Clean_nonempty.
Qed.

Lemma entry_data_Ok (fs : tree) (P : list string) (n r : string) :
  entry_data fs P n = Ok r ↔ fs !! (P ++ [n]) = Some (File r).
Proof.
  unfold entry_data. destruct (fs !! (P ++ [n])) as [[]|]; naive_solver.
Qed.

Lemma ReadAll_cases (C : string) (d : Driver) (w : World) :
  C ≠ "" → names_ok (files w) →
  lookup_path (files w) (resolve cwd (Join [dir d; C])) = Ok Dir →
  let P := resolve cwd (Join [dir d; C]) in
  (∃ recs, ReadAll cwd C d w = (recs, None)
     ∧ Forall2 (λ n r, files w !! (P ++ [n]) = Some (File r))
         (entries (files w) P) recs)
  ∨ (∃ n, n ∈ entries (files w) P ∧ files w !! (P ++ [n]) = Some Dir
     ∧ ReadAll cwd C d w = ([], Some (PathError EISDIR))).
Proof.
  intros HC Hok Hdir P.
  destruct (ReadAll_unfold C d w HC Hok Hdir) as [-> Hread].
  fold P in Hread. fold P.
  destruct (read_records_cases _ _ P _ [] Hread)
    as [(recs & Hall & ->)|(n & e & Hin & Herr & ->)].
  - left. exists recs. split; [done|].
    eapply Forall2_impl; [exact Hall|]. intros n r. by rewrite entry_data_Ok.
  - right. exists n. unfold entry_data in Herr.
    apply elem_of_entries in Hin as Hs. destruct Hs as [[r|] Hx];
      rewrite Hx in Herr; [done|]. by injection Herr as <-.
Qed.
End read_all.

Section delete.
Variable cwd : list string.

Lemma RemoveAll_present (path : string) (fs : tree) (n : node) :
  path ≠ "" → endsWithDot path = false → endsWithDotDot path = false →
  resolve cwd path ≠ [] →
  lookup_path fs (resolve cwd path) = Ok n →
  RemoveAll cwd path fs = (remove_tree (resolve cwd path) fs, None).
Proof.
  intros Hne Hdot Hdotdot Hroot Hn. unfold RemoveAll.
  rewrite decide_False, Hdot, Hn, Hdotdot by done.
  by destruct (resolve cwd path).
Qed.

Lemma RemoveAll_dot (path : string) (fs : tree) :
  path ≠ "" → endsWithDot path = true →
  RemoveAll cwd path fs = (fs, Some EINVAL).
Proof. intros Hne Hdot. unfold RemoveAll. by rewrite decide_False, Hdot. Qed.

Lemma RemoveAll_dotdot (path : string) (fs : tree) (n : node) :
  path ≠ "" → endsWithDotDot path = true →
  lookup_path fs (resolve cwd path) = Ok n →
  RemoveAll cwd path fs = (empty_tree (resolve cwd path) fs, Some ENOTEMPTY).
Proof.
  intros Hne Hdotdot Hn. unfold RemoveAll.
  by rewrite decide_False, endsWithDotDot_not_dot, Hn, Hdotdot.
Qed.

Lemma RemoveAll_absent (path : string) (fs : tree) :
  endsWithDot path = false →
  lookup_path fs (resolve cwd path) = Err ENOENT →
  RemoveAll cwd path fs = (fs, None).
Proof.
  intros Hdot Hn. unfold RemoveAll. case_decide; [done|].
  by rewrite Hdot, Hn.
Qed.

Lemma RemoveAll_suffixed (l : list string) (fs : tree) :
  RemoveAll cwd (Join l +:+ ".json") fs =
  match lookup_path fs (resolve cwd (Join l +:+ ".json")) with
  | Ok _ => (remove_tree (resolve cwd (Join l +:+ ".json")) fs, None)
  | Err ENOENT => (fs, None)
  | Err e => (fs, Some e)
  end.
Proof.
  destruct (Join_suffixed l) as (r & out & n & Hout & Hn & Heq).
  assert (Join l +:+ ".json" ≠ "") as Hne by (by intros [_ ?]%app_eq_empty).
  assert (endsWithDot (Join l +:+ ".json") = false) as Hdot.
  { rewrite Heq. by apply endsWithDot_name. }
  assert (endsWithDotDot (Join l +:+ ".json") = false) as Hdotdot.
  { rewrite Heq. by apply endsWithDotDot_name. }
  assert (resolve cwd (Join l +:+ ".json") ≠ []) as Hroot.
  { rewrite Heq. by apply resolve_snoc_nonempty. }
  destruct (lookup_path fs _) as [x|e] eqn:Hl.
  - by eapply RemoveAll_present.
  - unfold RemoveAll. by rewrite decide_False, Hdot, Hl.
Qed.

Lemma Delete_unfold (C R : string) (d : Driver) (w : World) :
  ∃ m d1 w1,
    getOrCreateMutex C d w = (m, d1, w1) ∧
    Delete cwd C R d w =
    match stat cwd (Join [dir d; Join [C; R]]) (files w) with
    | Err _ =>
        (Some (Errorf ("unable to find file or directory named "
                       +:+ Join [C; R] +:+ newline)), d1, w1)
    | Ok ModeDir =>
        let '(fs1, err) :=
          RemoveAll cwd (Join [dir d; Join [C; R]]) (files w) in
        (PathError <$> err, d1, set_files fs1 w1)
    | Ok ModeRegular =>
        let '(fs1, err) :=
          RemoveAll cwd (Join [dir d; Join [C; R]] +:+ ".json") (files w) in
        (PathError <$> err, d1, set_files fs1 w1)
    end.
Proof.
  destruct (getOrCreateMutex C d w) as [[m d1] w1] eqn:Hg.
  exists m, d1, w1. split; [done|].
  unfold Delete. rewrite Hg.
  apply getOrCreateMutex_spec in Hg as (-> & -> & _).
  by destruct (stat _ _ _) as [[]|].
Qed.

Lemma Delete_files_unchanged (C R : string) (d : Driver) (w : World)
    (m : Mutex) (d1 : Driver) (w1 : World) :
  getOrCreateMutex C d w = (m, d1, w1) → files w1 = files w.
Proof. by intros (_ & ? & _)%getOrCreateMutex_spec. Qed.

(** The outcomes of [Delete]. *)
Lemma Delete_dir (C R : string) (d : Driver) (w : World) :
  let dir_ := Join [dir d; Join [C; R]] in
  dir_ ≠ "" → endsWithDot dir_ = false → endsWithDotDot dir_ = false →
  resolve cwd dir_ ≠ [] →
  lookup_path (files w) (resolve cwd dir_) = Ok Dir →
  (Delete cwd C R d w).1.1 = None
  ∧ removed (resolve cwd dir_) (files w) (files (Delete cwd C R d w).2).
Proof.
  intros dir_ Hne Hdot Hdotdot Hroot Hdir.
  destruct (Delete_unfold C R d w) as (m & d1 & w1 & Hg & ->). fold dir_.
  unfold stat. rewrite Stat_lookup, Hdir by done. simpl.
  rewrite (RemoveAll_present _ _ Dir) by done. simpl.
  split; [done|]. intros q. apply remove_tree_lookup.
Qed.

(** A directory spelled with a final [.] is refused, and of one spelled
    with a final [..] only the contents go. *)
Lemma Delete_dir_dot (C R : string) (d : Driver) (w : World) :
  let dir_ := Join [dir d; Join [C; R]] in
  endsWithDot dir_ = true →
  lookup_path (files w) (resolve cwd dir_) = Ok Dir →
  (Delete cwd C R d w).1.1 = Some (PathError EINVAL)
  ∧ files (Delete cwd C R d w).2 = files w.
Proof.
  intros dir_ Hdot Hdir.
  assert (dir_ ≠ "") as Hne by (by intros Heq; rewrite Heq in Hdot).
  destruct (Delete_unfold C R d w) as (m & d1 & w1 & Hg & ->). fold dir_.
  unfold stat. rewrite Stat_lookup, Hdir by done. simpl.
  by rewrite RemoveAll_dot.
Qed.

Lemma Delete_dir_dotdot (C R : string) (d : Driver) (w : World) :
  let dir_ := Join [dir d; Join [C; R]] in
  endsWithDotDot dir_ = true →
  lookup_path (files w) (resolve cwd dir_) = Ok Dir →
  (Delete cwd C R d w).1.1 = Some (PathError ENOTEMPTY)
  ∧ emptied (resolve cwd dir_) (files w) (files (Delete cwd C R d w).2).
Proof.
  intros dir_ Hdotdot Hdir.
  assert (dir_ ≠ "") as Hne by (by intros Heq; rewrite Heq in Hdotdot).
  destruct (Delete_unfold C R d w) as (m & d1 & w1 & Hg & ->). fold dir_.
  unfold stat. rewrite Stat_lookup, Hdir by done. simpl.
  rewrite (RemoveAll_dotdot _ _ Dir) by done. simpl.
  split; [done|]. intros q. apply empty_tree_lookup.
Qed.

Lemma Delete_dir_by_suffix (C R : string) (d : Driver) (w : World) :
  let dir_ := Join [dir d; Join [C; R]] in
  dir_ ≠ "" → endsWithDot dir_ = false →
  lookup_path (files w) (resolve cwd dir_) = Err ENOENT →
  lookup_path (files w) (resolve cwd (dir_ +:+ ".json")) = Ok Dir →
  (Delete cwd C R d w).1.1 = None
  ∧ files (Delete cwd C R d w).2 = files w.
Proof.
  intros dir_ Hne Hdot Hbare Hsuf.
  destruct (Delete_unfold C R d w) as (m & d1 & w1 & Hg & ->). fold dir_.
  unfold stat. rewrite Stat_lookup, Hbare by done. simpl.
  rewrite Stat_lookup, Hsuf by (by intros [_ ?]%app_eq_empty). simpl.
  by rewrite RemoveAll_absent.
Qed.

Lemma Delete_regular (C R : string) (d : Driver) (w : World) :
  let dir_ := Join [dir d; Join [C; R]] in
  stat cwd dir_ (files w) = Ok ModeRegular →
  match lookup_path (files w) (resolve cwd (dir_ +:+ ".json")) with
  | Ok _ =>
      (Delete cwd C R d w).1.1 = None
      ∧ removed (resolve cwd (dir_ +:+ ".json")) (files w)
          (files (Delete cwd C R d w).2)
  | Err ENOENT =>
      (Delete cwd C R d w).1.1 = None
      ∧ files (Delete cwd C R d w).2 = files w
  | Err e =>
      (Delete cwd C R d w).1.1 = Some (PathError e)
      ∧ files (Delete cwd C R d w).2 = files w
  end.
Proof.
  intros dir_ Hstat.
  destruct (Delete_unfold C R d w) as (m & d1 & w1 & Hg & ->). fold dir_.
  rewrite Hstat. unfold dir_. rewrite RemoveAll_suffixed.
  destruct (lookup_path _ _) as [n|e]; simpl.
  - split; [done|]. intros q. apply remove_tree_lookup.
  - by destruct e.
Qed.

Lemma Delete_not_found (C R : string) (d : Driver) (w : World) (e : errno) :
  stat cwd (Join [dir d; Join [C; R]]) (files w) = Err e →
  (Delete cwd C R d w).1.1
  = Some (Errorf ("unable to find file or directory named "
                  +:+ Join [C; R] +:+ newline))
  ∧ files (Delete cwd C R d w).2 = files w.
Proof.
  intros Hstat.
  destruct (Delete_unfold C R d w) as (m & d1 & w1 & Hg & ->).
  rewrite Hstat. simpl. split; [done|]. by eapply Delete_files_unchanged.
Qed.
End delete.

End driver_facts.

(** * The properties of the specification *)

Import strings_go strings_facts filepath filepath_facts.
Import os os_facts driver driver_paths driver_facts.

Section claims.
Variable cwd : list string.
Variable Value : Type.
Variable MarshalIndent : Value → option string.
Variable Unmarshal : string → option Value.

(** C1, amended: for a non-empty collection name [C], a resource name
    [R] that is a plain file name (non-empty, no separator, neither [.]
    nor [..]) and a document the serializer can represent, a [Write]
    that returns no error followed by [Read] returns the document. *)
Theorem Write_then_Read (C R : string) (doc : Value) (d d' : Driver)
    (w w' : World) :
  C ≠ "" → is_name R = true →
  representable Value MarshalIndent Unmarshal doc →
  Write cwd Value MarshalIndent C R doc d w = (None, d', w') →
  Read cwd Value Unmarshal C R d' w' = Ok doc.
Proof. intros HC HR Hdoc HW. by eapply Read_after_Write. Qed.

(** C8, amended: for a non-empty collection name and a plain resource
    name, two successful writes to the same resource followed by [Read]
    return the second document, and the temporary file of [Write] does
    not exist afterwards. *)
Theorem Write_Write_Read (C R : string) (doc1 doc2 : Value)
    (d d1 d2 : Driver) (w w1 w2 : World) :
  C ≠ "" → is_name R = true →
  representable Value MarshalIndent Unmarshal doc2 →
  Write cwd Value MarshalIndent C R doc1 d w = (None, d1, w1) →
  Write cwd Value MarshalIndent C R doc2 d1 w1 = (None, d2, w2) →
  Read cwd Value Unmarshal C R d2 w2 = Ok doc2
  ∧ Stat cwd (Join [Join [dir d; C]; R +:+ ".json"] +:+ ".tmp") (files w2)
    = Err ENOENT.
Proof.
  intros HC HR Hdoc HW1 HW2.
  pose proof (coll_paths_intro cwd (dir d) C R HC HR) as HP.
  destruct (Write_ok cwd Value MarshalIndent C R doc1 d d1 w w1 _ HC HR HP HW1)
    as (_ & _ & Hdir & _).
  rewrite <-Hdir. by eapply Read_after_Write.
Qed.

(** C4, amended: for a non-empty collection name and a plain resource
    name, a [Write] that returns an error, at whatever step, leaves the
    final path and everything below it as it was. *)
Theorem failed_Write_keeps_final (C R : string) (doc : Value)
    (d d' : Driver) (w w' : World) (e : error) (q : list string) :
  C ≠ "" → is_name R = true →
  Write cwd Value MarshalIndent C R doc d w = (Some e, d', w') →
  resolve cwd (Join [Join [dir d; C]; R +:+ ".json"]) `prefix_of` q →
  files w' !! q = files w !! q.
Proof.
  intros HC HR HW Hq.
  pose proof (coll_paths_intro cwd (dir d) C R HC HR) as HP.
  rewrite (cp_final _ _ _ _ _ HP) in Hq.
  by eapply Write_failure_frame.
Qed.

(** C2, amended: for a non-empty collection name and a plain resource
    name, the result of [Read] is decided by the suffixed path alone: its
    bytes are decoded when it is a regular file, and [Read] fails with
    the error of reaching it otherwise -- with ENOENT when it does not
    exist, whether or not the bare path exists. *)
Theorem Read_reads_suffixed_path (C R : string) (d : Driver) (w : World) :
  C ≠ "" → is_name R = true →
  Read cwd Value Unmarshal C R d w =
  match lookup_path (files w)
          (resolve cwd (Join [dir d; C]) ++ [R +:+ ".json"]) with
  | Ok (File b) => decode Value Unmarshal b
  | Ok Dir => Err (PathError EISDIR)
  | Err e => Err (PathError e)
  end.
Proof.
  intros HC HR. apply Read_suffixed; [done..|]. by apply coll_paths_intro.
Qed.

(** C6: the mutex [getOrCreateMutex] returns for a collection name stays
    registered under that name through any later calls on the driver,
    every later call of [getOrCreateMutex] with the name returns it and
    leaves the registry as it is, and no call removes or replaces an
    entry of the registry. *)
Theorem mutex_identity_stable (calls : list (call Value)) (c : string)
    (d : Driver) (w : World) :
  let first := getOrCreateMutex c d w in
  let later := run cwd Value MarshalIndent calls first.1.2 first.2 in
  mutexes later.1 !! c = Some first.1.1
  ∧ getOrCreateMutex c later.1 later.2 = (first.1.1, later.1, later.2)
  ∧ registry_le d later.1.
Proof.
  intros first later.
  assert (mutexes first.1.2 !! c = Some first.1.1) as Hreg.
  { subst first. destruct (getOrCreateMutex c d w) as [[m d1] w1] eqn:Hg.
    by apply getOrCreateMutex_spec in Hg as (_ & _ & ? & _). }
  assert (mutexes later.1 !! c = Some first.1.1) as Hlater.
  { by apply run_registry. }
  split_and!; [done| |].
  - by apply getOrCreateMutex_registered.
  - eapply registry_le_trans; [apply getOrCreateMutex_registry|].
    apply run_registry.
Qed.

(** C3, amended: [Write] and [Read] with an empty collection or resource
    name and [ReadAll] with an empty collection name fail with the
    message of the name check, and [Write] leaves driver and world as
    they were.  [Delete] has no name check: no error it returns is one of
    those messages, and with an empty name it joins the names as it
    always does, probes the joined path below the root and acts on it.
    It fails with its not-found message and changes nothing when the
    probe finds nothing, and it returns no error and removes the
    directory with all below it when the joined path is a directory
    (spelled without a final [.] or [..], and not the root of the file
    system). *)
Theorem empty_names_rejected (C R : string) (v : Value) (d : Driver)
    (w : World) :
  Write cwd Value MarshalIndent "" R v d w
  = (Some (Errorf "Missing collection - no place to save records"), d, w)
  ∧ (C ≠ "" →
     Write cwd Value MarshalIndent C "" v d w
     = (Some (Errorf "Missing resource - unable to save records (no name)"),
        d, w))
  ∧ Read cwd Value Unmarshal "" R d w
    = Err (Errorf "Missing collection - unable to read")
  ∧ (C ≠ "" →
     Read cwd Value Unmarshal C "" d w
     = Err (Errorf "Missing resource - unable to save record (no name)"))
  ∧ ReadAll cwd "" d w
    = ([], Some (Errorf "Missing collection - unable to read"))
  ∧ (∀ e, (Delete cwd C R d w).1.1 = Some e →
          is_validation_error e = false)
  ∧ (C ≠ "" → Join [C; ""] = Clean C)
  ∧ (R ≠ "" → Join [""; R] = Clean R)
  ∧ (C = "" ∨ R = "" →
     let dir_ := Join [dir d; Join [C; R]] in
     let err := (Delete cwd C R d w).1.1 in
     let after := files (Delete cwd C R d w).2 in
     (∀ e, stat cwd dir_ (files w) = Err e →
        err = Some (Errorf ("unable to find file or directory named "
                            +:+ Join [C; R] +:+ newline))
        ∧ after = files w)
     ∧ (dir_ ≠ "" → endsWithDot dir_ = false →
        endsWithDotDot dir_ = false → resolve cwd dir_ ≠ [] →
        lookup_path (files w) (resolve cwd dir_) = Ok Dir →
        err = None ∧ removed (resolve cwd dir_) (files w) after)).
Proof.
  split_and!; try done.
  - intros ?. unfold Write. by rewrite decide_False.
  - intros ?. unfold Read. by rewrite decide_False.
  - intros e. unfold Delete.
    destruct (getOrCreateMutex C d w) as [[m d1] w1].
    destruct (stat _ _ _) as [[]|]; simpl.
    + destruct (RemoveAll _ _ _) as [fs1 [e1|]]; simpl; [|done].
      by intros [= <-].
    + destruct (RemoveAll _ _ _) as [fs1 [e1|]]; simpl; [|done].
      by intros [= <-].
    + intros [= <-]. reflexivity.
  - intros ?. cbn [Join]. rewrite decide_False by done.
    by apply Clean_trailing_sep.
  - intros ?. cbn [Join]. rewrite decide_True, decide_False by done.
    done.
  - intros _ dir_ err after. split.
    + apply Delete_not_found.
    + apply Delete_dir.
Qed.

(** C7: on an existing collection directory, [ReadAll] either returns,
    without an error, one string per directory entry, each the raw bytes
    of that entry, or it returns the error of an entry that could not be
    read together with no record at all. *)
Theorem ReadAll_raw_entries (C : string) (d : Driver) (w : World) :
  C ≠ "" → names_ok (files w) →
  lookup_path (files w) (resolve cwd (Join [dir d; C])) = Ok Dir →
  let P := resolve cwd (Join [dir d; C]) in
  let names := entries (files w) P in
  NoDup names
  ∧ (∀ n, n ∈ names ↔ is_Some (files w !! (P ++ [n])))
  ∧ ((∃ recs, ReadAll cwd C d w = (recs, None)
        ∧ Forall2 (λ n r, files w !! (P ++ [n]) = Some (File r)) names recs)
     ∨ (∃ n e, n ∈ names
        ∧ ReadFile cwd (Join [Join [dir d; C]; n]) (files w) = Err e
        ∧ ReadAll cwd C d w = ([], Some (PathError e)))).
Proof.
  intros HC Hok Hdir P names. split_and!.
  - apply NoDup_entries.
  - intros n. apply elem_of_entries.
  - destruct (ReadAll_cases cwd C d w HC Hok Hdir)
      as [(recs & ? & ?)|(n & Hin & Hn & ?)].
    + left. by exists recs.
    + right. exists n, EISDIR. split_and!; [done| |done].
      destruct (ReadAll_unfold cwd C d w HC Hok Hdir) as [_ Hread].
      rewrite Hread by done. unfold entry_data. by rewrite Hn.
Qed.

(** C10: when the directory of the collection has a subdirectory,
    [ReadAll] fails with the error of reading a directory and returns no
    record, whatever else the collection holds. *)
Theorem ReadAll_fails_on_subdirectory (C : string) (d : Driver) (w : World)
    (n : string) :
  C ≠ "" → names_ok (files w) →
  lookup_path (files w) (resolve cwd (Join [dir d; C])) = Ok Dir →
  files w !! (resolve cwd (Join [dir d; C]) ++ [n]) = Some Dir →
  ReadAll cwd C d w = ([], Some (PathError EISDIR)).
Proof.
  intros HC Hok Hdir Hsub.
  destruct (ReadAll_cases cwd C d w HC Hok Hdir)
    as [(recs & _ & Hall)|(_ & _ & _ & ?)]; [|done].
  assert (n ∈ entries (files w) (resolve cwd (Join [dir d; C]))) as Hin.
  { apply elem_of_entries. by exists Dir. }
  apply list_elem_of_lookup in Hin as [i Hi].
  destruct (Forall2_lookup_l _ _ _ _ _ Hall Hi) as (r & _ & Hr).
  congruence.
Qed.

(** C5, amended: [Delete] probes the joined path bare and then with the
    suffix.  When the bare path is a directory, it and all below it are
    removed, unless it is a directory that cannot be removed through
    that spelling: with a final [.] the removal is refused with EINVAL
    and nothing is removed, with a final [..] the contents are removed,
    the directory stays and ENOTEMPTY is returned (the root of the file
    system is left aside).  When only the suffixed path exists and is a
    directory, the removal is applied to the bare path: nothing is
    removed and no error is returned.  When the probe finds a regular
    file, the suffixed path is what is removed (with all below it), if
    it exists.  When the probe finds nothing, [Delete] fails with its
    not-found message and removes nothing. *)
Theorem Delete_branches (C R : string) (d : Driver) (w : World) :
  let path := Join [C; R] in
  let dir_ := Join [dir d; path] in
  let bare := resolve cwd dir_ in
  let suffixed := resolve cwd (dir_ +:+ ".json") in
  let err := (Delete cwd C R d w).1.1 in
  let after := files (Delete cwd C R d w).2 in
  (dir_ ≠ "" → endsWithDot dir_ = false → endsWithDotDot dir_ = false →
   bare ≠ [] →
   lookup_path (files w) bare = Ok Dir →
   err = None ∧ removed bare (files w) after)
  ∧ (endsWithDot dir_ = true →
     lookup_path (files w) bare = Ok Dir →
     err = Some (PathError EINVAL) ∧ after = files w)
  ∧ (endsWithDotDot dir_ = true →
     lookup_path (files w) bare = Ok Dir →
     err = Some (PathError ENOTEMPTY) ∧ emptied bare (files w) after)
  ∧ (dir_ ≠ "" → endsWithDot dir_ = false →
     lookup_path (files w) bare = Err ENOENT →
     lookup_path (files w) suffixed = Ok Dir →
     err = None ∧ after = files w)
  ∧ (stat cwd dir_ (files w) = Ok ModeRegular →
     match lookup_path (files w) suffixed with
     | Ok _ => err = None ∧ removed suffixed (files w) after
     | Err ENOENT => err = None ∧ after = files w
     | Err e => err = Some (PathError e) ∧ after = files w
     end)
  ∧ (∀ e, stat cwd dir_ (files w) = Err e →
     err = Some (Errorf ("unable to find file or directory named "
                         +:+ path +:+ newline))
     ∧ after = files w).
Proof.
  intros path dir_ bare suffixed err after. split_and!.
  - apply Delete_dir.
  - apply Delete_dir_dot.
  - apply Delete_dir_dotdot.
  - apply Delete_dir_by_suffix.
  - apply Delete_regular.
  - apply Delete_not_found.
Qed.

(** C9, amended: for a driver whose root is a cleaned path, [Delete(C,
    "")] with a non-empty collection name acts on the directory of the
    collection, unless the name is rooted and climbs above its start
    (as [/..] does); [Delete("", "")] acts on the root of the store.
    When that directory exists, it is removed with all below it and no
    error is returned, unless it cannot be removed through its
    spelling: with a final [.] (as the root [./] of [main]) the removal
    is refused with EINVAL and nothing is removed, and with a final [..]
    the contents are removed, the directory stays and ENOTEMPTY is
    returned (the root of the file system is left aside). *)
Theorem Delete_empty_resource (C : string) (d : Driver) (w : World) :
  Clean (dir d) = dir d →
  (C ≠ "" → has_sep_prefix C = false ∨ climbs C = false →
   let dir_ := Join [dir d; C] in
   let err := (Delete cwd C "" d w).1.1 in
   let after := files (Delete cwd C "" d w).2 in
   lookup_path (files w) (resolve cwd dir_) = Ok Dir →
   (endsWithDot dir_ = false → endsWithDotDot dir_ = false →
    resolve cwd dir_ ≠ [] →
    err = None ∧ removed (resolve cwd dir_) (files w) after)
   ∧ (endsWithDot dir_ = true →
      err = Some (PathError EINVAL) ∧ after = files w)
   ∧ (endsWithDotDot dir_ = true →
      err = Some (PathError ENOTEMPTY)
      ∧ emptied (resolve cwd dir_) (files w) after))
  ∧ (let err := (Delete cwd "" "" d w).1.1 in
     let after := files (Delete cwd "" "" d w).2 in
     lookup_path (files w) (resolve cwd (dir d)) = Ok Dir →
     (endsWithDot (dir d) = false → endsWithDotDot (dir d) = false →
      resolve cwd (dir d) ≠ [] →
      err = None ∧ removed (resolve cwd (dir d)) (files w) after)
     ∧ (endsWithDot (dir d) = true →
        err = Some (PathError EINVAL) ∧ after = files w)
     ∧ (endsWithDotDot (dir d) = true →
        err = Some (PathError ENOTEMPTY)
        ∧ emptied (resolve cwd (dir d)) (files w) after)).
Proof.
  intros Hclean.
  assert (dir d ≠ "") as Hne by (rewrite <-Hclean; apply Clean_nonempty).
  split.
  - intros HC Hcond dir_ err after Hdir.
    pose proof (Delete_dir cwd C "" d w) as H1.
    pose proof (Delete_dir_dot cwd C "" d w) as H2.
    pose proof (Delete_dir_dotdot cwd C "" d w) as H3.
    cbv zeta in H1, H2, H3.
    rewrite Join_empty_resource_any in H1, H2, H3 by done.
    split_and!; [|by auto..]. intros ???. apply H1; try done.
    unfold dir_. rewrite Join_pair by done. apply Clean_nonempty.
  - intros err after Hdir.
    pose proof (Delete_dir cwd "" "" d w) as H1.
    pose proof (Delete_dir_dot cwd "" "" d w) as H2.
    pose proof (Delete_dir_dotdot cwd "" "" d w) as H3.
    cbv zeta in H1, H2, H3.
    rewrite Join_empty_both in H1, H2, H3 by done.
    split_and!; by auto.
Qed.

End claims.

(** ** Concrete scenarios *)

(** The round trip on the store of the scenarios. *)
Lemma Write_then_Read_witness :
  Read demo.cwd string demo.Unmarshal "users" "alice" demo.db2 demo.world2
  = Ok "hello".
Proof.
  apply (Write_then_Read demo.cwd string demo.MarshalIndent demo.Unmarshal
           "users" "alice" "hello" demo.db demo.db2 demo.world1 demo.world2).
  - done.
  - reflexivity.
  - by exists "hello".
  - vm_compute. reflexivity.
Defined.

(** C1 as stated fails for the resource name [.]: [Write] stores
    [db/users/..json] and succeeds, [Read] probes [db/users], finds the
    directory of the collection, and reads [db/users.json]. *)
Lemma Write_Read_dot_resource :
  "users" ≠ "" ∧ "." ≠ ""
  ∧ representable string demo.MarshalIndent demo.Unmarshal "hello"
  ∧ (Write demo.cwd string demo.MarshalIndent "users" "." "hello"
       demo.db demo.world1).1.1 = None
  ∧ Read demo.cwd string demo.Unmarshal "users" "."
      (Write demo.cwd string demo.MarshalIndent "users" "." "hello"
         demo.db demo.world1).1.2
      (Write demo.cwd string demo.MarshalIndent "users" "." "hello"
         demo.db demo.world1).2
    = Err (PathError ENOENT).
Proof.
  split_and!; [done|done|by exists "hello"|vm_compute; reflexivity..].
Qed.

(** [Delete] with an empty collection name on the store of the
    scenarios: the names join to [users], and the directory of that
    collection is removed. *)
Lemma empty_names_rejected_witness :
  Join [""; "users"] = Clean "users"
  ∧ (Delete demo.cwd "" "users" demo.db2 demo.world2).1.1 = None
  ∧ removed ["home"; "db"; "users"] (files demo.world2)
      (files (Delete demo.cwd "" "users" demo.db2 demo.world2).2).
Proof.
  destruct (empty_names_rejected demo.cwd string demo.MarshalIndent
              demo.Unmarshal "" "users" "x" demo.db2 demo.world2)
    as (_ & _ & _ & _ & _ & _ & _ & Hjoin & Hacts).
  split; [by apply Hjoin|].
  destruct Hacts as [_ Hdir]; [by left|].
  apply Hdir.
  - vm_compute. discriminate.
  - vm_compute. reflexivity.
  - vm_compute. reflexivity.
  - vm_compute. discriminate.
  - vm_compute. reflexivity.
Defined.

(** C3 as stated fails for [Delete]: with an empty resource name it
    returns no error and removes the directory of the collection. *)
Lemma Delete_accepts_empty_resource :
  (Delete demo.cwd "users" "" demo.db2 demo.world2).1.1 = None
  ∧ lookup_path (files demo.world2) ["home"; "db"; "users"] = Ok Dir
  ∧ lookup_path (files (Delete demo.cwd "users" "" demo.db2 demo.world2).2)
      ["home"; "db"; "users"] = Err ENOENT.
Proof. split_and!; vm_compute; reflexivity. Qed.

(** Overwriting [alice] on the store of the scenarios. *)
Lemma Write_Write_Read_witness :
  Read demo.cwd string demo.Unmarshal "users" "alice"
    (Write demo.cwd string demo.MarshalIndent "users" "alice" "bye"
       demo.db2 demo.world2).1.2
    (Write demo.cwd string demo.MarshalIndent "users" "alice" "bye"
       demo.db2 demo.world2).2
  = Ok "bye"
  ∧ Stat demo.cwd
      (Join [Join [dir demo.db; "users"]; "alice" +:+ ".json"] +:+ ".tmp")
      (files (Write demo.cwd string demo.MarshalIndent "users" "alice" "bye"
                demo.db2 demo.world2).2)
    = Err ENOENT.
Proof.
  apply (Write_Write_Read demo.cwd string demo.MarshalIndent demo.Unmarshal
           "users" "alice" "hello" "bye" demo.db demo.db2 _
           demo.world1 demo.world2 _).
  - done.
  - reflexivity.
  - by exists "bye".
  - vm_compute. reflexivity.
  - vm_compute. reflexivity.
Defined.

(** C8 as stated fails for the resource name [..]: both writes store
    [db/users/...json] and succeed, [Read] probes [db] and reads
    [db.json]. *)
Lemma Write_Write_Read_dotdot_resource :
  let first :=
    Write demo.cwd string demo.MarshalIndent "users" ".." "hello"
      demo.db demo.world1 in
  let second :=
    Write demo.cwd string demo.MarshalIndent "users" ".." "bye"
      first.1.2 first.2 in
  "users" ≠ "" ∧ ".." ≠ ""
  ∧ first.1.1 = None ∧ second.1.1 = None
  ∧ Read demo.cwd string demo.Unmarshal "users" ".." second.1.2 second.2
    = Err (PathError ENOENT).
Proof. split_and!; [done|done|vm_compute; reflexivity..]. Qed.

(** A write that fails in the serializer leaves [alice.json] as it
    was. *)
Lemma failed_Write_keeps_final_witness :
  files (Write demo.cwd string demo.MarshalFail "users" "alice" "bye"
           demo.db2 demo.world2).2
    !! ["home"; "db"; "users"; "alice.json"]
  = files demo.world2 !! ["home"; "db"; "users"; "alice.json"].
Proof.
  apply (failed_Write_keeps_final demo.cwd string demo.MarshalFail
           "users" "alice" "bye" demo.db2
           (Write demo.cwd string demo.MarshalFail "users" "alice" "bye"
              demo.db2 demo.world2).1.2
           demo.world2 _ MarshalError).
  - done.
  - reflexivity.
  - vm_compute. reflexivity.
  - vm_compute. by exists [].
Defined.

(** C4 as stated fails when the resource name climbs out of the
    collection: for collection [a.json] and resource [../a] the final
    path is the directory of the collection itself, which [MkdirAll]
    creates before the serializer fails. *)
Lemma failed_Write_creates_final :
  let final :=
    resolve demo.cwd
      (Join [Join [dir demo.db; "a.json"]; "../a" +:+ ".json"]) in
  let failed :=
    Write demo.cwd string demo.MarshalFail "a.json" "../a" "hello"
      demo.db demo.world1 in
  "a.json" ≠ "" ∧ "../a" ≠ ""
  ∧ failed.1.1 = Some MarshalError
  ∧ files demo.world1 !! final = None
  ∧ files failed.2 !! final = Some Dir.
Proof. split_and!; [done|done|vm_compute; reflexivity..]. Qed.

(** Reading [alice] on the store of the scenarios. *)
Lemma Read_reads_suffixed_path_witness :
  Read demo.cwd string demo.Unmarshal "users" "alice" demo.db2 demo.world2
  = Ok "hello".
Proof.
  eapply eq_trans.
  - apply (Read_reads_suffixed_path demo.cwd string demo.Unmarshal
             "users" "alice" demo.db2 demo.world2).
    + done.
    + reflexivity.
  - vm_compute. reflexivity.
Defined.

(** C2 as stated fails for a resource stored under the bare path only:
    the probe finds the regular file [db/users/alice], whose bytes can
    be read, and [Read] fails because [db/users/alice.json] does not
    exist. *)
Lemma Read_bare_only_resource :
  let record := Join [dir demo.db; "users"; "alice"] in
  "users" ≠ "" ∧ "alice" ≠ ""
  ∧ stat demo.cwd record (files demo.world_bare) = Ok ModeRegular
  ∧ ReadFile demo.cwd record (files demo.world_bare)
    = Ok ("hello" +:+ newline)
  ∧ Stat demo.cwd (record +:+ ".json") (files demo.world_bare) = Err ENOENT
  ∧ Read demo.cwd string demo.Unmarshal "users" "alice"
      demo.db demo.world_bare
    = Err (PathError ENOENT).
Proof. split_and!; [done|done|vm_compute; reflexivity..]. Qed.

(** Listing a collection of two resources. *)
Lemma ReadAll_raw_entries_witness :
  ∃ recs, ReadAll demo.cwd "users" demo.db2 demo.world3 = (recs, None)
    ∧ Forall2 (λ n r, files demo.world3 !! (["home"; "db"; "users"] ++ [n])
                      = Some (File r))
        (entries (files demo.world3) ["home"; "db"; "users"]) recs.
Proof.
  destruct (ReadAll_raw_entries demo.cwd "users" demo.db2 demo.world3)
    as (_ & _ & [Hok|(n & e & _ & _ & Hfail)]).
  - done.
  - apply (bool_decide_unpack _). vm_compute. exact I.
  - vm_compute. reflexivity.
  - exact Hok.
  - vm_compute in Hfail. discriminate Hfail.
Defined.

(** Listing a collection with the subdirectory [sub]. *)
Lemma ReadAll_fails_on_subdirectory_witness :
  ReadAll demo.cwd "users" demo.db2 demo.world_sub
  = ([], Some (PathError EISDIR)).
Proof.
  apply (ReadAll_fails_on_subdirectory demo.cwd "users" demo.db2
           demo.world_sub "sub").
  - done.
  - apply (bool_decide_unpack _). vm_compute. exact I.
  - vm_compute. reflexivity.
  - vm_compute. reflexivity.
Defined.

(** C5 as stated fails when the probe finds a directory through the
    suffix: [Delete("users", "alice")] finds the directory
    [db/users/alice.json], applies the removal to [db/users/alice],
    which does not exist, and returns no error; the directory and the
    file in it are still there. *)
Lemma Delete_leaves_suffixed_directory :
  let dir_ := Join [dir demo.db_nested; Join ["users"; "alice"]] in
  stat demo.cwd dir_ (files demo.world_nested) = Ok ModeDir
  ∧ lookup_path (files demo.world_nested) (resolve demo.cwd dir_)
    = Err ENOENT
  ∧ lookup_path (files demo.world_nested)
      (resolve demo.cwd (dir_ +:+ ".json")) = Ok Dir
  ∧ (Delete demo.cwd "users" "alice" demo.db_nested demo.world_nested).1.1
    = None
  ∧ lookup_path
      (files (Delete demo.cwd "users" "alice" demo.db_nested
                demo.world_nested).2)
      (resolve demo.cwd (dir_ +:+ ".json")) = Ok Dir
  ∧ lookup_path
      (files (Delete demo.cwd "users" "alice" demo.db_nested
                demo.world_nested).2)
      (resolve demo.cwd (dir_ +:+ ".json") ++ ["r.json"])
    = Ok (File ("hello" +:+ newline)).
Proof. split_and!; vm_compute; reflexivity. Qed.

(** The branches of [Delete] on the stores of the scenarios: the file of
    [alice], the directory of [users], the root [.], the parent [..] of
    the working directory, and a resource that is not there. *)
Lemma Delete_branches_witness :
  ((Delete demo.cwd "users" "alice" demo.db2 demo.world2).1.1 = None
   ∧ removed ["home"; "db"; "users"; "alice.json"] (files demo.world2)
       (files (Delete demo.cwd "users" "alice" demo.db2 demo.world2).2))
  ∧ ((Delete demo.cwd "users" "" demo.db2 demo.world2).1.1 = None
     ∧ removed ["home"; "db"; "users"] (files demo.world2)
         (files (Delete demo.cwd "users" "" demo.db2 demo.world2).2))
  ∧ ((Delete demo.cwd "" "" demo.db_here demo.world2).1.1
     = Some (PathError EINVAL)
     ∧ files (Delete demo.cwd "" "" demo.db_here demo.world2).2
       = files demo.world2)
  ∧ ((Delete demo.cwd ".." "" demo.db_here demo.world2).1.1
     = Some (PathError ENOTEMPTY)
     ∧ emptied [] (files demo.world2)
         (files (Delete demo.cwd ".." "" demo.db_here demo.world2).2))
  ∧ ((Delete demo.cwd "pets" "rex" demo.db2 demo.world2).1.1
     = Some (Errorf ("unable to find file or directory named "
                     +:+ Join ["pets"; "rex"] +:+ newline))
     ∧ files (Delete demo.cwd "pets" "rex" demo.db2 demo.world2).2
       = files demo.world2).
Proof.
  split; [|split; [|split; [|split]]].
  - destruct (Delete_branches demo.cwd "users" "alice" demo.db2 demo.world2)
      as (_ & _ & _ & _ & Hregular & _).
    apply Hregular. vm_compute. reflexivity.
  - destruct (Delete_branches demo.cwd "users" "" demo.db2 demo.world2)
      as (Hdir & _).
    apply Hdir.
    + vm_compute. discriminate.
    + vm_compute. reflexivity.
    + vm_compute. reflexivity.
    + vm_compute. discriminate.
    + vm_compute. reflexivity.
  - destruct (Delete_branches demo.cwd "" "" demo.db_here demo.world2)
      as (_ & Hdot & _).
    apply Hdot.
    + vm_compute. reflexivity.
    + vm_compute. reflexivity.
  - destruct (Delete_branches demo.cwd ".." "" demo.db_here demo.world2)
      as (_ & _ & Hdotdot & _).
    apply Hdotdot.
    + vm_compute. reflexivity.
    + vm_compute. reflexivity.
  - destruct (Delete_branches demo.cwd "pets" "rex" demo.db2 demo.world2)
      as (_ & _ & _ & _ & _ & Hnone).
    apply (Hnone ENOENT). vm_compute. reflexivity.
Defined.

(** C9 as stated fails for the collection name [/..]: joined to the
    root [db] it names the working directory, which is where [Write] and
    [ReadAll] put the collection; [Delete] cleans the name to [/] first
    and so removes the root [db] of the store instead. *)
Lemma Delete_rooted_collection_name :
  let coll := resolve demo.cwd (Join [dir demo.db2; "/.."]) in
  let after := files (Delete demo.cwd "/.." "" demo.db2 demo.world2).2 in
  "/.." ≠ ""
  ∧ lookup_path (files demo.world2) coll = Ok Dir
  ∧ (Delete demo.cwd "/.." "" demo.db2 demo.world2).1.1 = None
  ∧ lookup_path after coll = Ok Dir
  ∧ lookup_path (files demo.world2) ["home"; "db"] = Ok Dir
  ∧ lookup_path after ["home"; "db"] = Err ENOENT.
Proof. split_and!; [done|vm_compute; reflexivity..]. Qed.

(** Deleting the collection [users], under its plain and under its
    rooted name, and deleting the whole store: the root [db] goes, the
    root [.] is refused, and a root [..] is emptied. *)
Lemma Delete_empty_resource_witness :
  ((Delete demo.cwd "users" "" demo.db2 demo.world2).1.1 = None
   ∧ removed ["home"; "db"; "users"] (files demo.world2)
       (files (Delete demo.cwd "users" "" demo.db2 demo.world2).2))
  ∧ ((Delete demo.cwd "/users" "" demo.db2 demo.world2).1.1 = None
     ∧ removed ["home"; "db"; "users"] (files demo.world2)
         (files (Delete demo.cwd "/users" "" demo.db2 demo.world2).2))
  ∧ ((Delete demo.cwd "" "" demo.db2 demo.world2).1.1 = None
     ∧ removed ["home"; "db"] (files demo.world2)
         (files (Delete demo.cwd "" "" demo.db2 demo.world2).2))
  ∧ ((Delete demo.cwd "" "" demo.db_here demo.world2).1.1
     = Some (PathError EINVAL)
     ∧ files (Delete demo.cwd "" "" demo.db_here demo.world2).2
       = files demo.world2)
  ∧ ((Delete demo.cwd "" "" demo.db_parent demo.world2).1.1
     = Some (PathError ENOTEMPTY)
     ∧ emptied [] (files demo.world2)
         (files (Delete demo.cwd "" "" demo.db_parent demo.world2).2)).
Proof.
  split; [|split; [|split; [|split]]].
  - destruct (Delete_empty_resource demo.cwd "users" demo.db2 demo.world2)
      as [Hcoll _]; [reflexivity|].
    destruct Hcoll as (Hdir & _).
    + discriminate.
    + left. reflexivity.
    + vm_compute. reflexivity.
    + apply Hdir.
      * vm_compute. reflexivity.
      * vm_compute. reflexivity.
      * vm_compute. discriminate.
  - destruct (Delete_empty_resource demo.cwd "/users" demo.db2 demo.world2)
      as [Hcoll _]; [reflexivity|].
    destruct Hcoll as (Hdir & _).
    + discriminate.
    + right. vm_compute. reflexivity.
    + vm_compute. reflexivity.
    + apply Hdir.
      * vm_compute. reflexivity.
      * vm_compute. reflexivity.
      * vm_compute. discriminate.
  - destruct (Delete_empty_resource demo.cwd "users" demo.db2 demo.world2)
      as [_ Hroot]; [reflexivity|].
    destruct Hroot as (Hdir & _).
    + vm_compute. reflexivity.
    + apply Hdir.
      * vm_compute. reflexivity.
      * vm_compute. reflexivity.
      * vm_compute. discriminate.
  - destruct (Delete_empty_resource demo.cwd "users" demo.db_here demo.world2)
      as [_ Hroot]; [reflexivity|].
    destruct Hroot as (_ & Hdot & _).
    + vm_compute. reflexivity.
    + apply Hdot. vm_compute. reflexivity.
  - destruct (Delete_empty_resource demo.cwd "users" demo.db_parent
                demo.world2) as [_ Hroot]; [reflexivity|].
    destruct Hroot as (_ & _ & Hdotdot).
    + vm_compute. reflexivity.
    + apply Hdotdot. vm_compute. reflexivity.
Defined.

(** The root [./] of [main]: [os.RemoveAll] refuses the spelling [.],
    and [Delete("", "")] removes nothing. *)
Example Delete_root_here :
  Join [dir demo.db_here; Join [""; ""]] = "."
  ∧ (Delete demo.cwd "" "" demo.db_here demo.world0).1.1
    = Some (PathError EINVAL)
  ∧ files (Delete demo.cwd "" "" demo.db_here demo.world0).2
    = files demo.world0.
Proof. split_and!; vm_compute; reflexivity. Qed.

(** * Further properties of the driver *)

Lemma Clean_idem (a : string) : Clean (Clean a) = Clean a.
Proof.
  destruct (decide (a = "")) as [->|Ha]; [done|].
  rewrite (Clean_elems a) by done.
  set (r := has_sep_prefix a). set (out := elems r a []).
  assert (clean_out r out = true) as Hout by (by apply elems_out).
  rewrite Clean_elems by (by apply render_nonempty).
  by rewrite render_sep_prefix, elems_render.
Qed.

Lemma only_adds_dirs_keeps (p : list string) (fs fs' : tree)
    (q : list string) (n : node) :
  only_adds_dirs p fs fs' → fs !! q = Some n → fs' !! q = Some n.
Proof. intros H Hq. destruct (H q) as [->|(? & _)]; congruence. Qed.


Section new_driver.
Variable cwd : list string.
Variable Value : Type.
Variable MarshalIndent : Value → option string.
Variable Unmarshal : string → option Value.

(** X1: [New] stores the root in cleaned form: opening a store under a
    path and under its cleaned spelling gives the same driver and world,
    the root of the driver is a fixed point of [Clean], and the registry
    of a new driver is empty. *)
Theorem New_normalises (dir_ : string) (w : World) :
  New cwd (Clean dir_) w = New cwd dir_ w
  ∧ Clean (dir (New cwd dir_ w).1.1) = dir (New cwd dir_ w).1.1
  ∧ mutexes (New cwd dir_ w).1.1 = ∅.
Proof.
  unfold New. rewrite Clean_idem. split; [done|].
  destruct (Stat cwd (Clean dir_) (files w)); simpl.
  - split; [apply Clean_idem|done].
  - destruct (MkdirAll _ _ _). simpl. split; [apply Clean_idem|done].
Qed.

(** X2: [New] removes and changes nothing that exists.  When the root
    path exists, as a directory or as a file, [New] returns no error and
    leaves the world as it is.  When [New] returns no error the root path
    exists afterwards, and it is a directory when it did not exist
    before. *)
Theorem New_keeps_files (dir_ : string) (w : World) :
  let d := (New cwd dir_ w).1.1 in
  let err := (New cwd dir_ w).1.2 in
  let w' := (New cwd dir_ w).2 in
  (∀ q n, files w !! q = Some n → files w' !! q = Some n)
  ∧ ((∃ fi, Stat cwd (dir d) (files w) = Ok fi) → err = None ∧ w' = w)
  ∧ (err = None → ∃ fi, Stat cwd (dir d) (files w') = Ok fi)
  ∧ (err = None → (∀ fi, Stat cwd (dir d) (files w) ≠ Ok fi) →
     Stat cwd (dir d) (files w') = Ok ModeDir).
Proof.
  assert (Clean dir_ ≠ "") as Hne by apply Clean_nonempty.
  assert (dir (New cwd dir_ w).1.1 = Clean dir_) as Hd.
  { unfold New. destruct (Stat _ _ _); [done|]. by destruct (MkdirAll _ _ _). }
  cbv zeta. rewrite Hd. unfold New.
  destruct (Stat cwd (Clean dir_) (files w)) as [fi|e] eqn:Hstat; simpl.
  { split_and!; try done.
    - intros _. by exists fi.
    - intros _ H. by destruct (H fi). }
  unfold MkdirAll. rewrite decide_False by done.
  destruct (mkdir_all _ _) as [fs1 err] eqn:Hmk. simpl.
  apply mkdir_all_spec in Hmk as [Hadds Hdir].
  assert (err = None → Stat cwd (Clean dir_) fs1 = Ok ModeDir) as Hok.
  { intros ->. rewrite Stat_lookup by done.
    rewrite rev_involutive in Hdir. by rewrite Hdir. }
  split_and!.
  - intros q n. by eapply only_adds_dirs_keeps.
  - by intros [fi ?].
  - destruct err; [done|]. intros _. exists ModeDir. by apply Hok.
  - destruct err; [done|]. intros _ _. by apply Hok.
Qed.
End new_driver.

Lemma json_ne_json_tmp (a b : string) : a +:+ ".json" ≠ b +:+ ".json.tmp".
Proof.
  intros Heq.
  assert (String.length a + 5 = String.length b + 9) as Hlen.
  { apply (f_equal String.length) in Heq. by rewrite !length_app in Heq. }
  pose proof (String.append_correct2 a ".json" 4) as Ha.
  pose proof (String.append_correct2 b ".json.tmp" 8) as Hb.
  rewrite Heq in Ha.
  replace (4 + String.length a) with (8 + String.length b) in Ha by lia.
  rewrite <-Hb in Ha. discriminate Ha.
Qed.

Lemma write_file_lookup (p : list string) (data : string) (fs fs' : tree) :
  write_file p data fs = (fs', None) →
  lookup_path fs' p = Ok (File data).
Proof.
  intros H. pose proof H as [-> Hpar]%write_file_spec.
  destruct p as [|c p _] using rev_ind.
  - rewrite lookup_path_nil. by rewrite lookup_insert_eq.
  - rewrite lookup_path_child; [by rewrite lookup_insert_eq|].
    rewrite lookup_path_insert_ne by apply snoc_not_prefix. by eapply Hpar.
Qed.

Section write_failures.
Variable cwd : list string.
Variable Value : Type.
Variable MarshalIndent : Value → option string.
Variable Unmarshal : string → option Value.

(** [Write] past its name checks, with the system calls on resolved
    paths. *)
Lemma Write_unfold_any (C R : string) (v : Value) (d : Driver) (w : World) :
  C ≠ "" → R ≠ "" →
  let dir_ := Join [dir d; C] in
  let final := Join [dir_; R +:+ ".json"] in
  ∃ m d1 w1,
    getOrCreateMutex C d w = (m, d1, w1) ∧
    Write cwd Value MarshalIndent C R v d w =
    match mkdir_all (rev (resolve cwd dir_)) (files w) with
    | (fs1, Some e) => (Some (PathError e), d1, set_files fs1 w1)
    | (fs1, None) =>
        match MarshalIndent v with
        | None => (Some MarshalError, d1, set_files fs1 w1)
        | Some b =>
            match write_file (resolve cwd (final +:+ ".tmp"))
                    (b +:+ newline) fs1 with
            | (fs2, Some e) => (Some (PathError e), d1, set_files fs2 w1)
            | (fs2, None) =>
                let '(fs3, err) :=
                  Rename cwd (final +:+ ".tmp") final fs2 in
                (PathError <$> err, d1, set_files fs3 w1)
            end
        end
    end.
Proof.
  intros HC HR dir_ final.
  destruct (getOrCreateMutex C d w) as [[m d1] w1] eqn:Hg.
  exists m, d1, w1. split; [done|].
  unfold Write. rewrite !decide_False by done. rewrite Hg.
  apply getOrCreateMutex_spec in Hg as (-> & -> & _).
  fold dir_. fold final. unfold MkdirAll, WriteFile.
  rewrite decide_False.
  2: { unfold dir_. rewrite Join_coll by done. apply Clean_nonempty. }
  destruct (mkdir_all _ _) as [fs1 [e|]]; [done|].
  destruct (MarshalIndent v); [|done].
  rewrite decide_False by (by intros [_ ?]%app_eq_empty). done.
Qed.


(** X4: a document that cannot be encoded is never written.  [Write]
    then fails, with the encoder's error or with the error of making the
    collection directory, and all it may have done is add directories on
    the way to the collection directory, which exists when the error is
    the encoder's. *)
Theorem Write_unencodable (C R : string) (v : Value) (d : Driver)
    (w : World) :
  C ≠ "" → R ≠ "" → MarshalIndent v = None →
  let P := resolve cwd (Join [dir d; C]) in
  let err := (Write cwd Value MarshalIndent C R v d w).1.1 in
  let after := files (Write cwd Value MarshalIndent C R v d w).2 in
  only_adds_dirs P (files w) after
  ∧ (err = Some MarshalError ∧ lookup_path after P = Ok Dir
     ∨ ∃ e, err = Some (PathError e)).
Proof.
  intros HC HR Hv P err after. subst err after.
  destruct (Write_unfold_any C R v d w HC HR) as (m & d1 & w1 & _ & ->).
  fold P. destruct (mkdir_all (rev P) (files w)) as [fs1 e1] eqn:Hmk.
  apply mkdir_all_spec in Hmk as [Hadds Hdir].
  rewrite rev_involutive in Hadds, Hdir.
  destruct e1 as [e|]; simpl.
  - split; [done|]. right. by exists e.
  - rewrite Hv. simpl. split; [done|]. left. split; [done|]. by apply Hdir.
Qed.
End write_failures.

Lemma lookup_path_prefix (fs : tree) (t q : list string) (n : node) :
  lookup_path fs t = Ok n → q `prefix_of` t →
  fs !! q = Some (if decide (q = t) then n else Dir).
Proof.
  revert n. induction t as [|c t IH] using rev_ind; intros n Ht Hq.
  - apply prefix_nil_inv in Hq as ->. rewrite decide_True by done.
    by apply lookup_path_Ok.
  - apply prefix_snoc_inv in Hq as [Hq| ->].
    + rewrite decide_False.
      2: { intros ->. by apply snoc_not_prefix in Hq. }
      apply lookup_path_parent in Ht. specialize (IH _ Ht Hq).
      by case_decide.
    + rewrite decide_True by done. by apply lookup_path_Ok.
Qed.

Lemma mkdir_all_existing (rp : list string) (fs : tree) :
  lookup_path fs (rev rp) = Ok Dir → mkdir_all rp fs = (fs, None).
Proof. intros H. destruct rp; cbn [mkdir_all]; by rewrite H. Qed.

Lemma write_file_child (fs : tree) (P : list string) (c data : string) :
  lookup_path fs P = Ok Dir → fs !! (P ++ [c]) ≠ Some Dir →
  write_file (P ++ [c]) data fs = (<[P ++ [c] := File data]> fs, None).
Proof.
  intros HP Hc. unfold write_file.
  rewrite lookup_path_child, parent_snoc, HP by done.
  by destruct (fs !! (P ++ [c])) as [[]|].
Qed.

Lemma rename_file_child (fs : tree) (P : list string) (a b data : string) :
  lookup_path fs P = Ok Dir → fs !! (P ++ [a]) = Some (File data) →
  rename (P ++ [a]) (P ++ [b]) fs
  = if decide (fs !! (P ++ [b]) = Some Dir) then (fs, Some EISDIR)
    else (<[P ++ [b] := File data]> (delete (P ++ [a]) fs), None).
Proof.
  intros HP Ha. unfold rename.
  rewrite lookup_path_child, Ha, parent_snoc, HP by done.
  destruct (fs !! (P ++ [b])) as [[]|]; by case_decide.
Qed.

(** [os.Rename] of a file within a directory: onto a directory it fails
    with EEXIST, before rename(2) is reached. *)
Lemma os_rename_file_child (fs : tree) (P : list string)
    (a b data : string) :
  lookup_path fs P = Ok Dir → fs !! (P ++ [a]) = Some (File data) →
  os_rename false (P ++ [a]) (P ++ [b]) fs
  = if decide (fs !! (P ++ [b]) = Some Dir) then (fs, Some EEXIST)
    else (<[P ++ [b] := File data]> (delete (P ++ [a]) fs), None).
Proof.
  intros HP Ha. unfold os_rename.
  rewrite (lookup_path_child fs P b) by done.
  destruct (fs !! (P ++ [b])) as [[]|] eqn:Hb.
  - rewrite (rename_file_child _ _ _ _ data), Hb by done.
    by rewrite !decide_False.
  - rewrite lookup_path_child, Ha by done. rewrite decide_True by done.
    rewrite bool_decide_true; [done|]. intros Heq. congruence.
  - rewrite (rename_file_child _ _ _ _ data), Hb by done.
    by rewrite !decide_False.
Qed.

Section write_success.
Variable cwd : list string.
Variable Value : Type.
Variable MarshalIndent : Value → option string.
Variable Unmarshal : string → option Value.

(** What a successful [Write] did to the tree. *)
Lemma Write_ok_inv (C R : string) (v : Value) (d d' : Driver) (w w' : World)
    (P : list string) :
  C ≠ "" → is_name R = true → coll_paths cwd (dir d) C R P →
  Write cwd Value MarshalIndent C R v d w = (None, d', w') →
  ∃ b fs1,
    MarshalIndent v = Some b
    ∧ mkdir_all (rev P) (files w) = (fs1, None)
    ∧ fs1 !! (P ++ [R +:+ ".json.tmp"]) ≠ Some Dir
    ∧ fs1 !! (P ++ [R +:+ ".json"]) ≠ Some Dir
    ∧ files w' =
      <[P ++ [R +:+ ".json"] := File (b +:+ newline)]>
        (delete (P ++ [R +:+ ".json.tmp"])
           (<[P ++ [R +:+ ".json.tmp"] := File (b +:+ newline)]> fs1))
    ∧ heap_top w' = heap_top (getOrCreateMutex C d w).2
    ∧ d' = (getOrCreateMutex C d w).1.2.
Proof.
  intros HC HR HP.
  destruct (Write_unfold cwd Value MarshalIndent C R v d w P HC HR HP)
    as (m & d1 & w1 & Hg & ->). rewrite Hg. simpl.
  destruct (mkdir_all (rev P) (files w)) as [fs1 [e|]] eqn:Hmk; [done|].
  pose proof Hmk as [_ HPdir]%mkdir_all_spec. specialize (HPdir eq_refl).
  rewrite rev_involutive in HPdir.
  destruct (MarshalIndent v) as [b|]; [|done].
  set (temp := P ++ [R +:+ ".json.tmp"]). set (final := P ++ [R +:+ ".json"]).
  set (data := b +:+ newline).
  assert (temp ≠ final) as Hne.
  { unfold temp, final. intros [=]%(inj (app P)). by eapply json_ne_tmp. }
  destruct (write_file temp data fs1) as [fs2 [e|]] eqn:Hwr; [done|].
  assert (fs1 !! temp ≠ Some Dir) as Htemp.
  { intros Hd. unfold write_file in Hwr. unfold temp in Hwr at 1.
    rewrite lookup_path_child in Hwr by done. fold temp in Hwr.
    by rewrite Hd in Hwr. }
  pose proof (write_file_lookup _ _ _ _ Hwr) as Hsrc.
  apply write_file_spec in Hwr as [-> _].
  destruct (os_rename false temp final _) as [fs3 [e|]] eqn:Hrn; [done|].
  assert (fs1 !! final ≠ Some Dir) as Hfinal.
  { intros Hd. unfold temp, final in Hrn.
    rewrite (os_rename_file_child _ _ _ _ data) in Hrn.
    - rewrite decide_True in Hrn; [done|].
      by rewrite lookup_insert_ne.
    - by rewrite lookup_path_insert_ne by apply snoc_not_prefix.
    - by rewrite lookup_insert_eq. }
  apply (os_rename_file_spec _ _ data) in Hrn as [-> _]; [|done].
  intros [= <- <-]. exists b, fs1. by split_and!.
Qed.

(** A successful [Write] keeps every walk that ends elsewhere than at
    its final and temporary paths. *)
Lemma Write_ok_keeps_walk (C R : string) (v : Value) (d d' : Driver)
    (w w' : World) (P t : list string) (n : node) :
  C ≠ "" → is_name R = true → coll_paths cwd (dir d) C R P →
  Write cwd Value MarshalIndent C R v d w = (None, d', w') →
  t ≠ P ++ [R +:+ ".json"] → t ≠ P ++ [R +:+ ".json.tmp"] →
  lookup_path (files w) t = Ok n → lookup_path (files w') t = Ok n.
Proof.
  intros HC HR HP HW Hfinal Htemp Ht.
  destruct (Write_ok_inv C R v d d' w w' P HC HR HP HW)
    as (b & fs1 & _ & Hmk & Htd & Hfd & -> & _).
  apply mkdir_all_spec in Hmk as [Hadds _].
  rewrite <-Ht. apply lookup_path_ext. intros q Hq.
  pose proof (lookup_path_prefix _ _ _ _ Ht Hq) as Hqs.
  assert (fs1 !! q = files w !! q) as H1.
  { destruct (Hadds q) as [|(Hnone & _)]; [done|congruence]. }
  assert (q ≠ P ++ [R +:+ ".json"]) as Hqf.
  { intros ->. rewrite decide_False in Hqs by done. congruence. }
  assert (q ≠ P ++ [R +:+ ".json.tmp"]) as Hqt.
  { intros ->. rewrite decide_False in Hqs by done. congruence. }
  by rewrite lookup_insert_ne, lookup_delete_ne, lookup_insert_ne.
Qed.

(** X6: a successful [Write] to one resource keeps every other
    resource readable: a resource whose file is another than the one
    written, and that [Read] returned before, is returned by [Read]
    afterwards. *)
Theorem Write_keeps_other_resources (C R C' R' : string) (v v' : Value)
    (d d' : Driver) (w w' : World) :
  C ≠ "" → is_name R = true → C' ≠ "" → is_name R' = true →
  resolve cwd (Join [dir d; C']) ++ [R' +:+ ".json"]
  ≠ resolve cwd (Join [dir d; C]) ++ [R +:+ ".json"] →
  Write cwd Value MarshalIndent C R v d w = (None, d', w') →
  Read cwd Value Unmarshal C' R' d w = Ok v' →
  Read cwd Value Unmarshal C' R' d' w' = Ok v'.
Proof.
  intros HC HR HC' HR' Hother HW.
  pose proof (coll_paths_intro cwd (dir d) C R HC HR) as HP.
  pose proof (coll_paths_intro cwd (dir d) C' R' HC' HR') as HP'.
  destruct (Write_ok cwd Value MarshalIndent C R v d d' w w' _ HC HR HP HW)
    as (_ & _ & Hdir & _).
  rewrite (Read_suffixed cwd Value Unmarshal C' R' d w _ HC' HR' HP').
  rewrite (Read_suffixed cwd Value Unmarshal C' R' d' w'
             (resolve cwd (Join [dir d; C'])) HC' HR')
    by (rewrite Hdir; exact HP').
  destruct (lookup_path (files w) _) as [[b'|]|] eqn:Ht; try done.
  assert (resolve cwd (Join [dir d; C']) ++ [R' +:+ ".json"]
          ≠ resolve cwd (Join [dir d; C]) ++ [R +:+ ".json.tmp"]) as Htmp.
  { intros Heq. apply app_inj_tail in Heq as [_ Heq].
    by apply json_ne_json_tmp in Heq. }
  by rewrite (Write_ok_keeps_walk C R v d d' w w' _ _ _ HC HR HP HW
                Hother Htmp Ht).
Qed.

(** X13: writing the same document again is a no-op on the state: after
    a successful [Write], the same [Write] succeeds and returns the
    driver and the world unchanged. *)
Theorem Write_again_changes_nothing (C R : string) (v : Value)
    (d d' : Driver) (w w' : World) :
  C ≠ "" → is_name R = true →
  Write cwd Value MarshalIndent C R v d w = (None, d', w') →
  Write cwd Value MarshalIndent C R v d' w' = (None, d', w').
Proof.
  intros HC HR HW.
  pose proof (coll_paths_intro cwd (dir d) C R HC HR) as HP.
  destruct (Write_ok cwd Value MarshalIndent C R v d d' w w' _ HC HR HP HW)
    as (b & Hb & Hdir & HPdir & Hfinal & Htemp).
  rewrite <-Hdir in HP, HPdir, Hfinal, Htemp.
  assert (mutexes d' !! C = Some (getOrCreateMutex C d w).1.1) as Hreg.
  { destruct (Write_ok_inv C R v d d' w w' _ HC HR
                (coll_paths_intro cwd (dir d) C R HC HR) HW)
      as (_ & _ & _ & _ & _ & _ & _ & _ & ->).
    destruct (getOrCreateMutex C d w) as [[m d1] w1] eqn:Hg.
    by apply getOrCreateMutex_spec in Hg as (_ & _ & ? & _). }
  destruct (Write_unfold cwd Value MarshalIndent C R v d' w' _ HC HR HP)
    as (m & d1 & w1 & Hg & ->).
  rewrite (getOrCreateMutex_registered _ _ _ _ Hreg) in Hg.
  injection Hg as <- <- <-.
  rewrite mkdir_all_existing by (by rewrite rev_involutive).
  rewrite Hb.
  rewrite write_file_child by (by rewrite ?Htemp).
  rewrite (os_rename_file_child _ _ _ _ (b +:+ newline)).
  - rewrite decide_False.
    2: { rewrite lookup_insert_ne, Hfinal; [done|].
         intros [=]%(inj (app _)). by eapply json_ne_tmp. }
    simpl. f_equal.
    rewrite delete_insert_eq, delete_id, insert_id by done.
    by destruct w'.
  - by rewrite lookup_path_insert_ne by apply snoc_not_prefix.
  - by rewrite lookup_insert_eq.
Qed.
End write_success.

Lemma RemoveAll_only_removes (cwd : list string) (path : string) (fs : tree)
    (q : list string) (n : node) :
  (RemoveAll cwd path fs).1 !! q = Some n → fs !! q = Some n.
Proof.
  unfold RemoveAll. repeat case_decide; try done.
  destruct (endsWithDot path); [done|].
  destruct (lookup_path fs (resolve cwd path)) as [x|[]]; try done.
  destruct (endsWithDotDot path).
  { simpl. by intros [? _]%map_lookup_filter_Some. }
  destruct (resolve cwd path); simpl; by intros [? _]%map_lookup_filter_Some.
Qed.

Lemma RemoveAll_outside (cwd : list string) (path : string) (fs : tree)
    (q : list string) :
  ¬ resolve cwd path `prefix_of` q →
  (RemoveAll cwd path fs).1 !! q = fs !! q.
Proof.
  intros Hq. unfold RemoveAll. repeat case_decide; try done.
  destruct (endsWithDot path); [done|].
  destruct (lookup_path fs (resolve cwd path)) as [x|[]]; try done.
  destruct (endsWithDotDot path).
  { simpl. rewrite empty_tree_lookup. rewrite decide_False; tauto. }
  destruct (resolve cwd path) as [|c p] eqn:Hp; simpl.
  - destruct Hq. apply prefix_nil.
  - rewrite remove_tree_lookup. by rewrite decide_False.
Qed.

Section delete_frame.
Variable cwd : list string.
Variable Value : Type.
Variable MarshalIndent : Value → option string.
Variable Unmarshal : string → option Value.

(** X5: when the final path of a resource is a directory, [Write] fails
    at the rename, with the EEXIST of [os.Rename], and does not clean
    up: the temporary file with the encoded document stays in the
    collection directory, and nothing else changes. *)
Theorem Write_over_directory (C R : string) (v : Value) (b : string)
    (d : Driver) (w : World) :
  C ≠ "" → is_name R = true → MarshalIndent v = Some b →
  let P := resolve cwd (Join [dir d; C]) in
  lookup_path (files w) P = Ok Dir →
  files w !! (P ++ [R +:+ ".json"]) = Some Dir →
  files w !! (P ++ [R +:+ ".json.tmp"]) ≠ Some Dir →
  (Write cwd Value MarshalIndent C R v d w).1.1 = Some (PathError EEXIST)
  ∧ files (Write cwd Value MarshalIndent C R v d w).2
    = <[P ++ [R +:+ ".json.tmp"] := File (b +:+ newline)]> (files w).
Proof.
  intros HC HR Hb P HP Hfinal Htemp.
  pose proof (coll_paths_intro cwd (dir d) C R HC HR) as Hpaths.
  destruct (Write_unfold cwd Value MarshalIndent C R v d w P HC HR Hpaths)
    as (m & d1 & w1 & _ & ->).
  rewrite mkdir_all_existing by (by rewrite rev_involutive). rewrite Hb.
  rewrite write_file_child by done.
  rewrite (os_rename_file_child _ _ _ _ (b +:+ newline)).
  - rewrite decide_True; [done|]. rewrite lookup_insert_ne; [done|].
    intros [=]%(inj (app _)). by eapply json_ne_tmp.
  - by rewrite lookup_path_insert_ne by apply snoc_not_prefix.
  - by rewrite lookup_insert_eq.
Qed.

(** X9: [Delete] only removes.  Every node of the tree after it was
    there before with the same content, and nothing outside the bare and
    the suffixed path (and what lies below them) is touched. *)
Theorem Delete_only_removes (C R : string) (d : Driver) (w : World) :
  let dir_ := Join [dir d; Join [C; R]] in
  let after := files (Delete cwd C R d w).2 in
  (∀ q n, after !! q = Some n → files w !! q = Some n)
  ∧ (∀ q, ¬ resolve cwd dir_ `prefix_of` q →
          ¬ resolve cwd (dir_ +:+ ".json") `prefix_of` q →
          after !! q = files w !! q).
Proof.
  intros dir_ after. subst after.
  destruct (Delete_unfold cwd C R d w) as (m & d1 & w1 & Hg & ->).
  fold dir_. apply getOrCreateMutex_spec in Hg as (_ & Hg & _).
  destruct (stat cwd dir_ (files w)) as [[]|].
  - pose proof (RemoveAll_only_removes cwd dir_ (files w)) as H1.
    pose proof (RemoveAll_outside cwd dir_ (files w)) as H2.
    destruct (RemoveAll cwd dir_ (files w)) as [fs1 err]. simpl in *.
    split; [exact H1|]. intros q Hq _. by apply H2.
  - pose proof (RemoveAll_only_removes cwd (dir_ +:+ ".json") (files w)) as H1.
    pose proof (RemoveAll_outside cwd (dir_ +:+ ".json") (files w)) as H2.
    destruct (RemoveAll cwd (dir_ +:+ ".json") (files w)) as [fs1 err].
    simpl in *. split; [exact H1|]. intros q _ Hq. by apply H2.
  - simpl. rewrite Hg. split; [by intros q n|by intros q _ _].
Qed.

(** X10: [ReadAll] returns records only for an existing directory: when
    the path of the collection is not a directory (it does not exist, is
    a regular file, or only its suffixed sibling exists), [ReadAll]
    returns an error and no record. *)
Theorem ReadAll_needs_directory (C : string) (d : Driver) (w : World) :
  lookup_path (files w) (resolve cwd (Join [dir d; C])) ≠ Ok Dir →
  ∃ e, ReadAll cwd C d w = ([], Some e).
Proof.
  intros Hnot. unfold ReadAll. case_decide as HC; [by eexists|].
  assert (Join [dir d; C] ≠ "") as Hne.
  { rewrite Join_coll by done. apply Clean_nonempty. }
  destruct (stat cwd _ (files w)); [|by eexists].
  unfold ReadDir. rewrite decide_False by done.
  destruct (lookup_path _ _) as [[]|]; [by eexists|done|by eexists].
Qed.
End delete_frame.

Lemma Join_nested (d C R : string) :
  C ≠ "" → has_sep_prefix C = false →
  Join [d; Join [C; R]] = Join [d; C; R].
Proof.
  intros HC Hrel.
  assert (C +:+ "/" +:+ R ≠ "") as Hc by (by intros [? _]%app_eq_empty).
  assert (Join [C; R] = Clean (C +:+ "/" +:+ R)) as ->.
  { cbn [Join]. by rewrite decide_False. }
  destruct (decide (d = "")) as [->|Hd].
  - cbn [Join]. rewrite decide_True by done.
    rewrite decide_False by apply Clean_nonempty.
    rewrite (decide_True (P := "" = "")) by done.
    rewrite decide_False by done. cbn [join]. apply Clean_idem.
  - rewrite Join_pair by done.
    rewrite Clean_Clean_r; [|done..|by rewrite has_sep_prefix_app].
    cbn [Join]. by rewrite decide_False.
Qed.

Lemma resolve_step_names (at_ : list string) (e : string) :
  sep_free e = true → Forall (λ n, is_name n = true) at_ →
  Forall (λ n, is_name n = true) (resolve_step at_ e).
Proof.
  intros He Hat. unfold resolve_step. repeat case_decide; try done.
  - destruct at_; [done|]. by inversion Hat.
  - constructor; [|done]. by apply is_name_spec.
Qed.

Lemma resolve_names (cwd : list string) (path : string) :
  Forall (λ n, is_name n = true) cwd →
  Forall (λ n, is_name n = true) (resolve cwd path).
Proof.
  intros Hcwd. unfold resolve. apply List.Forall_rev.
  assert (Forall (λ n, is_name n = true)
            (if has_sep_prefix path then [] else rev cwd)) as Hinit.
  { destruct (has_sep_prefix path); [done|]. by apply List.Forall_rev. }
  revert Hinit. generalize (if has_sep_prefix path then [] else rev cwd).
  pose proof (split_all_sep_free path) as Hs.
  induction Hs as [|e l He _ IH]; intros at_ Hat; [done|].
  simpl. by apply IH, resolve_step_names.
Qed.

Lemma names_ok_insert (fs : tree) (p : list string) (n : node) :
  names_ok fs → Forall (λ n, is_name n = true) p →
  names_ok (<[p := n]> fs).
Proof. intros Hfs Hp. by apply map_Forall_insert_2. Qed.

Lemma names_ok_subset (fs fs' : tree) :
  (∀ q n, fs' !! q = Some n → fs !! q = Some n) →
  names_ok fs → names_ok fs'.
Proof. intros Hsub Hfs q n Hq. by eapply Hfs, Hsub. Qed.

Lemma names_ok_adds_dirs (p : list string) (fs fs' : tree) :
  only_adds_dirs p fs fs' → Forall (λ n, is_name n = true) p →
  names_ok fs → names_ok fs'.
Proof.
  intros Hadds Hp Hfs q n Hq.
  destruct (Hadds q) as [Heq|(_ & _ & [k ->])].
  - rewrite Heq in Hq. by eapply Hfs.
  - by apply Forall_app in Hp as [? _].
Qed.

Lemma mkdir_all_names (rp : list string) (fs : tree) :
  Forall (λ n, is_name n = true) rp → names_ok fs →
  names_ok (mkdir_all rp fs).1.
Proof.
  intros Hrp Hfs. destruct (mkdir_all rp fs) as [fs1 e] eqn:Hmk.
  apply mkdir_all_spec in Hmk as [Hadds _].
  eapply names_ok_adds_dirs; [done| |done]. by apply List.Forall_rev.
Qed.

Lemma write_file_names (p : list string) (data : string) (fs : tree) :
  Forall (λ n, is_name n = true) p → names_ok fs →
  names_ok (write_file p data fs).1.
Proof.
  intros Hp Hfs. destruct (write_file p data fs) as [fs1 e] eqn:Hwr.
  apply write_file_spec in Hwr. destruct e; [by subst|].
  destruct Hwr as [-> _]. by apply names_ok_insert.
Qed.

Lemma rename_file_names (old new : list string) (data : string) (fs : tree) :
  lookup_path fs old = Ok (File data) →
  Forall (λ n, is_name n = true) new → names_ok fs →
  names_ok (rename old new fs).1.
Proof.
  intros Hold Hnew Hfs. destruct (rename old new fs) as [fs1 e] eqn:Hrn.
  apply (rename_file_spec _ _ data) in Hrn; [|done]. destruct e; [by subst|].
  destruct Hrn as [-> _]. apply names_ok_insert; [|done].
  eapply names_ok_subset; [|done]. by intros q n [_ ?]%lookup_delete_Some.
Qed.

Lemma os_rename_file_names (same : bool) (old new : list string)
    (data : string) (fs : tree) :
  lookup_path fs old = Ok (File data) →
  Forall (λ n, is_name n = true) new → names_ok fs →
  names_ok (os_rename same old new fs).1.
Proof.
  intros Hold Hnew Hfs. unfold os_rename.
  destruct (lookup_path fs new) as [[]|]; try by eapply rename_file_names.
  rewrite Hold. destruct (same || _); [done|by eapply rename_file_names].
Qed.

Section names_invariant.
Variable cwd : list string.
Variable Value : Type.
Variable MarshalIndent : Value → option string.
Variable Unmarshal : string → option Value.
Hypothesis cwd_names : Forall (λ n, is_name n = true) cwd.

Lemma Write_names (C R : string) (v : Value) (d : Driver) (w : World) :
  names_ok (files w) →
  names_ok (files (Write cwd Value MarshalIndent C R v d w).2).
Proof.
  intros Hw.
  destruct (decide (C = "")) as [->|HC]; [done|].
  destruct (decide (R = "")) as [->|HR].
  { unfold Write. by rewrite decide_False, decide_True. }
  destruct (Write_unfold_any cwd Value MarshalIndent C R v d w HC HR)
    as (m & d1 & w1 & _ & ->).
  pose proof (mkdir_all_names (rev (resolve cwd (Join [dir d; C]))) (files w)
                (List.Forall_rev (resolve_names cwd _ cwd_names)) Hw) as H1.
  destruct (mkdir_all _ _) as [fs1 [e|]]; [done|]. simpl in H1.
  destruct (MarshalIndent v) as [b|]; [|done].
  set (final := Join [Join [dir d; C]; R +:+ ".json"]).
  pose proof (write_file_names (resolve cwd (final +:+ ".tmp"))
                (b +:+ newline) fs1 (resolve_names cwd _ cwd_names) H1) as H2.
  destruct (write_file _ _ fs1) as [fs2 [e|]] eqn:Hwr; [done|].
  simpl in H2. apply write_file_lookup in Hwr.
  unfold Rename. case_decide; [done|].
  pose proof (os_rename_file_names (bool_decide (final +:+ ".tmp" = final))
                _ (resolve cwd final) _ _ Hwr
                (resolve_names cwd _ cwd_names) H2) as H3.
  by destruct (os_rename _ _ _ fs2).
Qed.

End names_invariant.

Lemma getOrCreateMutex_ok (c : string) (d : Driver) (w : World) :
  registry_ok d w →
  registry_ok (getOrCreateMutex c d w).1.2 (getOrCreateMutex c d w).2.
Proof.
  intros [Hlt Hinj]. unfold getOrCreateMutex.
  destruct (mutexes d !! c) as [m|] eqn:Hc; [done|].
  split; cbn [fst snd mutexes heap_top].
  - intros c' m'. rewrite lookup_insert. case_decide.
    + intros [= <-]. lia.
    + intros H'%Hlt. lia.
  - intros c1 c2 m. rewrite !lookup_insert. repeat case_decide; subst.
    + done.
    + intros [= <-] H2%Hlt. lia.
    + intros H1%Hlt [= <-]. lia.
    + apply Hinj.
Qed.

Lemma registry_ok_files (d : Driver) (w : World) (fs : tree) :
  registry_ok d w → registry_ok d (set_files fs w).
Proof. done. Qed.

Section compositions.
Variable cwd : list string.
Variable Value : Type.
Variable MarshalIndent : Value → option string.
Variable Unmarshal : string → option Value.

Lemma Write_registry_ok (C R : string) (v : Value) (d : Driver) (w : World) :
  registry_ok d w →
  registry_ok (Write cwd Value MarshalIndent C R v d w).1.2
    (Write cwd Value MarshalIndent C R v d w).2.
Proof.
  intros Hok. unfold Write. repeat case_decide; try done.
  pose proof (getOrCreateMutex_ok C d w Hok) as H1.
  destruct (getOrCreateMutex C d w) as [[m d1] w1]. simpl in H1.
  destruct (MkdirAll _ _ _) as [fs1 [e|]]; [done|].
  destruct (MarshalIndent v); [|done].
  destruct (WriteFile _ _ _ _) as [fs2 [e|]]; [done|].
  by destruct (Rename _ _ _ _).
Qed.

Lemma Delete_registry_ok (C R : string) (d : Driver) (w : World) :
  registry_ok d w →
  registry_ok (Delete cwd C R d w).1.2 (Delete cwd C R d w).2.
Proof.
  intros Hok. unfold Delete.
  pose proof (getOrCreateMutex_ok C d w Hok) as H1.
  destruct (getOrCreateMutex C d w) as [[m d1] w1]. simpl in H1.
  destruct (stat _ _ _) as [[]|]; simpl; [| |done].
  - by destruct (RemoveAll _ _ _).
  - by destruct (RemoveAll _ _ _).
Qed.

Lemma step_registry_ok (c : call Value) (d : Driver) (w : World) :
  registry_ok d w →
  registry_ok (step cwd Value MarshalIndent c d w).1
    (step cwd Value MarshalIndent c d w).2.
Proof.
  intros Hok. destruct c as [C R v|C R|C|C R|C]; simpl; try done.
  - pose proof (Write_registry_ok C R v d w Hok).
    by destruct (Write _ _ _ _ _ _ _ _) as [[? ?] ?].
  - pose proof (Delete_registry_ok C R d w Hok).
    by destruct (Delete _ _ _ _ _) as [[? ?] ?].
  - pose proof (getOrCreateMutex_ok C d w Hok).
    by destruct (getOrCreateMutex _ _ _) as [[? ?] ?].
Qed.

Lemma run_registry_ok (calls : list (call Value)) (d : Driver) (w : World) :
  registry_ok d w →
  registry_ok (run cwd Value MarshalIndent calls d w).1
    (run cwd Value MarshalIndent calls d w).2.
Proof.
  revert d w. induction calls as [|c calls IH]; intros d w Hok; [done|].
  simpl. pose proof (step_registry_ok c d w Hok) as Hstep.
  destruct (step _ _ _ c d w) as [d1 w1]. by apply IH.
Qed.

(** X11: a driver built by [New] never hands out one mutex under two
    collection names: after any calls, the mutexes registered for two
    different names are different. *)
Theorem mutexes_distinct (dir_ : string) (calls : list (call Value))
    (w : World) (c1 c2 : string) (m1 m2 : Mutex) :
  let opened := New cwd dir_ w in
  let later := run cwd Value MarshalIndent calls opened.1.1 opened.2 in
  mutexes later.1 !! c1 = Some m1 → mutexes later.1 !! c2 = Some m2 →
  c1 ≠ c2 → m1 ≠ m2.
Proof.
  intros opened later H1 H2 Hne ->.
  assert (registry_ok opened.1.1 opened.2) as Hok.
  { subst opened. unfold New. destruct (Stat _ _ _).
    - split; simpl; intros *; by rewrite lookup_empty.
    - destruct (MkdirAll _ _ _). split; simpl; intros *; by rewrite lookup_empty. }
  apply (run_registry_ok calls) in Hok as [_ Hinj].
  apply Hne. by eapply Hinj.
Qed.

Lemma Delete_dir_eq (C R : string) (d : Driver) (w : World) :
  dir (Delete cwd C R d w).1.2 = dir d.
Proof.
  destruct (Delete_unfold cwd C R d w) as (m & d1 & w1 & Hg & ->).
  apply getOrCreateMutex_spec in Hg as (Hg & _).
  destruct (stat _ _ _) as [[]|]; simpl; [| |done].
  - by destruct (RemoveAll _ _ _).
  - by destruct (RemoveAll _ _ _).
Qed.

(** X8: after a successful [Write] of a resource with a plain name in
    a collection whose name is a relative path, and when the bare path of
    the resource is not a directory, [Delete] returns no error and
    removes the file of the resource, and [Read] then fails with
    ENOENT. *)
Theorem Write_Delete_Read (C R : string) (v : Value) (d d1 : Driver)
    (w w1 : World) :
  C ≠ "" → has_sep_prefix C = false → is_name R = true →
  Write cwd Value MarshalIndent C R v d w = (None, d1, w1) →
  files w1 !! (resolve cwd (Join [dir d; C]) ++ [R]) ≠ Some Dir →
  (Delete cwd C R d1 w1).1.1 = None
  ∧ removed (resolve cwd (Join [dir d; C]) ++ [R +:+ ".json"]) (files w1)
      (files (Delete cwd C R d1 w1).2)
  ∧ Read cwd Value Unmarshal C R (Delete cwd C R d1 w1).1.2
      (Delete cwd C R d1 w1).2
    = Err (PathError ENOENT).
Proof.
  intros HC Hrel HR HW Hbare.
  pose proof (coll_paths_intro cwd (dir d) C R HC HR) as HP.
  destruct (Write_ok cwd Value MarshalIndent C R v d d1 w w1 _ HC HR HP HW)
    as (b & _ & Hdir & HPdir & Hfinal & _).
  set (P := resolve cwd (Join [dir d; C])) in *.
  pose proof (Delete_regular cwd C R d1 w1) as Hdel. cbv zeta in Hdel.
  rewrite Hdir, Join_nested in Hdel by done.
  rewrite (cp_suffixed _ _ _ _ _ HP), (cp_final _ _ _ _ _ HP) in Hdel.
  rewrite lookup_path_child, Hfinal in Hdel by done.
  destruct Hdel as [Herr Hrem].
  { unfold stat. rewrite Stat_lookup by apply HP.
    rewrite (cp_record _ _ _ _ _ HP), lookup_path_child by done.
    destruct (files w1 !! (P ++ [R])) as [[]|] eqn:Hb; [done|done|].
    change (IsNotExist ENOENT) with true. cbv iota.
    rewrite (cp_suffixed _ _ _ _ _ HP).
    rewrite Stat_lookup by apply HP.
    by rewrite (cp_final _ _ _ _ _ HP), lookup_path_child, Hfinal. }
  split_and!; [done..|].
  rewrite (Read_suffixed cwd Value Unmarshal C R _ _ P HC HR)
    by (rewrite Delete_dir_eq, Hdir; exact HP).
  rewrite lookup_path_child.
  - rewrite Hrem. by rewrite decide_True.
  - rewrite <-HPdir. apply lookup_path_ext. intros q Hq. rewrite Hrem.
    rewrite decide_False; [done|]. intros Hpre.
    eapply snoc_not_prefix. by etrans.
Qed.

(** X7: on a tree of proper names, after a successful [Write] the
    outcome of [ReadAll] on the collection is decided by whether the
    collection directory holds a subdirectory: if it does, [ReadAll]
    fails with EISDIR and returns no record; if no entry is a
    directory, [ReadAll] returns no error, and among its records is the
    encoded document followed by a newline. *)
Theorem Write_then_ReadAll (C R : string) (v : Value) (b : string)
    (d d1 : Driver) (w w1 : World) :
  Forall (λ n, is_name n = true) cwd → names_ok (files w) →
  C ≠ "" → is_name R = true → MarshalIndent v = Some b →
  Write cwd Value MarshalIndent C R v d w = (None, d1, w1) →
  let P := resolve cwd (Join [dir d; C]) in
  (∀ n, files w1 !! (P ++ [n]) = Some Dir →
        ReadAll cwd C d1 w1 = ([], Some (PathError EISDIR)))
  ∧ (Forall (λ n, files w1 !! (P ++ [n]) ≠ Some Dir) (entries (files w1) P) →
     ∃ recs, ReadAll cwd C d1 w1 = (recs, None) ∧ b +:+ newline ∈ recs).
Proof.
  intros Hcwd Hw HC HR Hb HW P.
  pose proof (coll_paths_intro cwd (dir d) C R HC HR) as HP. fold P in HP.
  destruct (Write_ok cwd Value MarshalIndent C R v d d1 w w1 _ HC HR HP HW)
    as (b' & Hb' & Hdir & HPdir & Hfinal & _).
  assert (b' = b) as -> by congruence.
  assert (names_ok (files w1)) as Hw1.
  { pose proof (Write_names cwd Value MarshalIndent Hcwd C R v d w Hw) as H.
    by rewrite HW in H. }
  assert (resolve cwd (Join [dir d1; C]) = P) as HP1 by (by rewrite Hdir).
  rewrite <-HP1 in HPdir.
  pose proof (ReadAll_cases cwd C d1 w1 HC Hw1 HPdir) as Hcases.
  cbv zeta in Hcases. rewrite HP1 in Hcases. split.
  - intros n Hn.
    destruct Hcases as [(recs & _ & Hall)|(_ & _ & _ & ?)]; [|done].
    assert (n ∈ entries (files w1) P) as Hin.
    { apply elem_of_entries. by exists Dir. }
    apply list_elem_of_lookup in Hin as [i Hi].
    destruct (Forall2_lookup_l _ _ _ _ _ Hall Hi) as (r & _ & Hr).
    congruence.
  - intros Hfiles.
    destruct Hcases as [(recs & Hread & Hall)|(n & Hin & Hn & _)].
    + exists recs. split; [done|].
      assert (R +:+ ".json" ∈ entries (files w1) P) as Hin.
      { apply elem_of_entries. by eexists. }
      apply list_elem_of_lookup in Hin as [i Hi].
      destruct (Forall2_lookup_l _ _ _ _ _ Hall Hi) as (r & Hr & Hfile).
      assert (r = b +:+ newline) as -> by congruence.
      by eapply list_elem_of_lookup_2.
    + rewrite Forall_forall in Hfiles. by destruct (Hfiles n Hin).
Qed.
End compositions.

(** ** Writes that succeed, and the loop of [main] *)

Section write_steps.
Variable cwd : list string.
Variable Value : Type.
Variable MarshalIndent : Value → option string.
Variable Unmarshal : string → option Value.

(** A [Write] that can make the collection directory and meets no
    directory at its final and temporary paths: what it returns and what
    the collection directory holds afterwards. *)
Lemma Write_entries (C R : string) (v : Value) (b : string) (d : Driver)
    (w : World) (P : list string) :
  C ≠ "" → is_name R = true → MarshalIndent v = Some b →
  coll_paths cwd (dir d) C R P →
  (mkdir_all (rev P) (files w)).2 = None →
  files w !! (P ++ [R +:+ ".json"]) ≠ Some Dir →
  files w !! (P ++ [R +:+ ".json.tmp"]) ≠ Some Dir →
  ∃ d' w',
    Write cwd Value MarshalIndent C R v d w = (None, d', w')
    ∧ dir d' = dir d
    ∧ lookup_path (files w') P = Ok Dir
    ∧ ∀ n, files w' !! (P ++ [n]) =
           if decide (n = R +:+ ".json") then Some (File (b +:+ newline))
           else if decide (n = R +:+ ".json.tmp") then None
           else files w !! (P ++ [n]).
Proof.
  intros HC HR Hb HP Hmk Hfinal Htemp.
  destruct (Write_unfold cwd Value MarshalIndent C R v d w P HC HR HP)
    as (m & d1 & w1 & Hg & ->).
  apply getOrCreateMutex_spec in Hg as (Hdir & _).
  destruct (mkdir_all (rev P) (files w)) as [fs1 e1] eqn:Hmk'.
  simpl in Hmk. subst e1.
  apply mkdir_all_spec in Hmk' as [Hadds HPdir]. specialize (HPdir eq_refl).
  rewrite rev_involutive in Hadds, HPdir.
  assert (∀ n, fs1 !! (P ++ [n]) = files w !! (P ++ [n])) as Hsame.
  { intros n. destruct (Hadds (P ++ [n])) as [|(_ & _ & Hpre)]; [done|].
    by apply snoc_not_prefix in Hpre. }
  rewrite Hb. rewrite write_file_child by (by rewrite ?Hsame).
  rewrite (os_rename_file_child _ _ _ _ (b +:+ newline)).
  2: { by rewrite lookup_path_insert_ne by apply snoc_not_prefix. }
  2: { by rewrite lookup_insert_eq. }
  assert (P ++ [R +:+ ".json.tmp"] ≠ P ++ [R +:+ ".json"]) as Hne.
  { intros [=]%(inj (app _)). by eapply json_ne_tmp. }
  rewrite decide_False by (by rewrite lookup_insert_ne, Hsame).
  eexists _, _. split; [done|]. simpl. split_and!; [done| |].
  - rewrite lookup_path_insert_ne by apply snoc_not_prefix.
    rewrite lookup_path_delete_ne by apply snoc_not_prefix.
    by rewrite lookup_path_insert_ne by apply snoc_not_prefix.
  - intros n. case_decide as H1; [subst; by rewrite lookup_insert_eq|].
    rewrite lookup_insert_ne by (by intros [=]%(inj (app _))).
    case_decide as H2; [subst; by rewrite lookup_delete_eq|].
    rewrite lookup_delete_ne by (by intros [=]%(inj (app _))).
    rewrite lookup_insert_ne by (by intros [=]%(inj (app _))).
    apply Hsame.
Qed.

(** X14: when [Write] succeeds.  For a collection name, a plain resource
    name and a value the serializer encodes, with names within the
    limits of the file system (the temporary path, the longest path
    [Write] uses, is [admissible]), [Write] returns no error as soon as
    the collection directory can be made and no directory lies at the
    final or the temporary path; [Read] of the resource then decodes the
    stored bytes. *)
Theorem Write_succeeds (C R : string) (v : Value) (b : string) (d : Driver)
    (w : World) :
  C ≠ "" → is_name R = true → MarshalIndent v = Some b →
  admissible (Join [Join [dir d; C]; R +:+ ".json"] +:+ ".tmp") = true →
  let P := resolve cwd (Join [dir d; C]) in
  (MkdirAll cwd (Join [dir d; C]) (files w)).2 = None →
  files w !! (P ++ [R +:+ ".json"]) ≠ Some Dir →
  files w !! (P ++ [R +:+ ".json.tmp"]) ≠ Some Dir →
  (Write cwd Value MarshalIndent C R v d w).1.1 = None
  ∧ Read cwd Value Unmarshal C R
      (Write cwd Value MarshalIndent C R v d w).1.2
      (Write cwd Value MarshalIndent C R v d w).2
    = decode Value Unmarshal (b +:+ newline).
Proof.
  intros HC HR Hb _ P Hmk Hfinal Htemp.
  pose proof (coll_paths_intro cwd (dir d) C R HC HR) as HP. fold P in HP.
  unfold MkdirAll in Hmk. rewrite decide_False in Hmk by apply HP.
  fold P in Hmk.
  destruct (Write_entries C R v b d w P HC HR Hb HP Hmk Hfinal Htemp)
    as (d' & w' & -> & Hdir & HPdir & Hent).
  split; [done|]. simpl.
  rewrite (Read_suffixed cwd Value Unmarshal C R d' w' P HC HR)
    by (rewrite Hdir; exact HP).
  rewrite lookup_path_child, Hent by done. by rewrite decide_True.
Qed.
End write_steps.

Lemma fmap_lookup_keys (M : gmap string string) :
  (λ n, default "" (M !! n)) <$> (map_to_list M).*1 = (map_to_list M).*2.
Proof.
  rewrite <-list_fmap_compose. apply Forall_fmap_ext, Forall_forall.
  intros [k x] Hkx%elem_of_map_to_list. simpl. by rewrite Hkx.
Qed.

Lemma append_inj_r (t a b : string) : a +:+ t = b +:+ t → a = b.
Proof.
  revert b. induction a as [|c a IH]; intros [|c' b] Heq.
  - done.
  - apply (f_equal String.length) in Heq. rewrite !length_app in Heq.
    simpl in Heq. lia.
  - apply (f_equal String.length) in Heq. rewrite !length_app in Heq.
    simpl in Heq. lia.
  - rewrite !app_cons in Heq. injection Heq as -> Heq. f_equal. by apply IH.
Qed.

Lemma holds_records (P : list string) (M : gmap string string) (fs : tree) :
  (∀ n, fs !! (P ++ [n]) = File <$> M !! n) →
  ∀ ns rs, Forall2 (λ n r, fs !! (P ++ [n]) = Some (File r)) ns rs →
           rs = (λ n, default "" (M !! n)) <$> ns.
Proof.
  intros Hfiles ns rs Hall. induction Hall as [|n r ns rs Hn _ IH]; [done|].
  rewrite fmap_cons. f_equal; [|done].
  rewrite Hfiles in Hn. by destruct (M !! n); simplify_eq/=.
Qed.

Section write_loops.
Variable cwd : list string.
Variable Value : Type.
Variable MarshalIndent : Value → option string.
Variable Unmarshal : string → option Value.
Hypothesis cwd_names : Forall (λ n, is_name n = true) cwd.

Lemma write_each_names (C : string) (records : list (string * Value))
    (d : Driver) (w : World) :
  names_ok (files w) →
  names_ok (files (write_each cwd Value MarshalIndent C records d w).2).
Proof.
  revert d w. induction records as [|[R v] records IH]; intros d w Hw;
    [done|].
  cbn [write_each].
  pose proof (Write_names cwd Value MarshalIndent cwd_names C R v d w Hw) as H1.
  destruct (Write _ _ _ C R v d w) as [[? d1] w1]. by apply IH.
Qed.

Lemma write_each_holds (C : string) (records : list (string * Value))
    (encoded : list string) (d : Driver) (w : World)
    (M : gmap string string) :
  C ≠ "" →
  Forall (λ r, is_name r.1 = true) records →
  Forall2 (λ r b, MarshalIndent r.2 = Some b) records encoded →
  NoDup records.*1 →
  (∀ r, r ∈ records → M !! (r.1 +:+ ".json") = None) →
  let P := resolve cwd (Join [dir d; C]) in
  (mkdir_all (rev P) (files w)).2 = None →
  holds P M (files w) →
  let d' := (write_each cwd Value MarshalIndent C records d w).1 in
  let w' := (write_each cwd Value MarshalIndent C records d w).2 in
  ∃ M', dir d' = dir d
    ∧ (records ≠ [] → lookup_path (files w') P = Ok Dir)
    ∧ holds P M' (files w')
    ∧ (map_to_list M').*2
      ≡ₚ ((λ b, b +:+ newline) <$> encoded) ++ (map_to_list M).*2.
Proof.
  intros HC Hnames Henc. revert d w M Hnames.
  induction Henc as [|[R v] b records encoded Hb _ IH];
    intros d w M Hnames Hdup Hfresh P Hmk Hholds d' w'.
  { exists M. by split_and!. }
  subst d' w'. cbn [write_each].
  apply Forall_cons in Hnames as [HR Hnames]. simpl in HR, Hb.
  rewrite fmap_cons in Hdup. apply NoDup_cons in Hdup as [HRnew Hdup].
  pose proof (coll_paths_intro cwd (dir d) C R HC HR) as HP. fold P in HP.
  destruct Hholds as [Hfiles Hkeys].
  assert (M !! (R +:+ ".json") = None) as HMR.
  { apply (Hfresh (R, v)). by left. }
  assert (M !! (R +:+ ".json.tmp") = None) as HMT.
  { destruct (M !! (R +:+ ".json.tmp")) eqn:Hk; [|done].
    destruct (Hkeys (R +:+ ".json.tmp")) as [x Hx]; [by eexists|].
    symmetry in Hx. by apply json_ne_json_tmp in Hx. }
  destruct (Write_entries cwd Value MarshalIndent C R v b d w P HC HR Hb HP Hmk)
    as (d1 & w1 & -> & Hdir & HPdir & Hent).
  { by rewrite Hfiles, HMR. }
  { by rewrite Hfiles, HMT. }
  assert (holds P (<[R +:+ ".json" := b +:+ newline]> M) (files w1)) as Hh1.
  { split.
    - intros n. rewrite Hent, lookup_insert. case_decide as H1.
      + subst. by rewrite decide_True by done.
      + rewrite (decide_False (P := R +:+ ".json" = n)) by congruence. case_decide as H2; [|apply Hfiles].
        subst. by rewrite HMT.
    - intros n [x Hx]. rewrite lookup_insert in Hx. case_decide.
      + by exists R.
      + apply Hkeys. by exists x. }
  destruct (IH d1 w1 (<[R +:+ ".json" := b +:+ newline]> M) Hnames Hdup)
    as (M' & Hdir' & Hlook & Hh' & Hperm).
  - intros r Hr. rewrite lookup_insert_ne.
    + apply Hfresh. by right.
    + intros Heq%append_inj_r. apply HRnew. rewrite Heq.
      apply list_elem_of_fmap. by exists r.
  - rewrite Hdir. by rewrite mkdir_all_existing by (by rewrite rev_involutive).
  - by rewrite Hdir.
  - rewrite Hdir in *. exists M'. split_and!; [congruence| | |].
    + intros _. destruct records as [|r records]; [done|]. by apply Hlook.
    + done.
    + rewrite Hperm. rewrite map_to_list_insert by done. simpl.
      by rewrite <-Permutation_middle.
Qed.

(** X15: the loop of [main] followed by [ReadAll].  Writing records with
    distinct plain names and encodable values, with names within the
    limits of the file system (every temporary path is [admissible]),
    into a collection whose directory can be made and holds nothing
    yet, then reading the collection, gives no error and exactly the
    stored documents, one per record and each with its final newline,
    in some order. *)
Theorem ReadAll_after_writes (C : string) (records : list (string * Value))
    (encoded : list string) (d : Driver) (w : World) :
  C ≠ "" → records ≠ [] →
  names_ok (files w) →
  Forall (λ r, is_name r.1 = true) records →
  Forall (λ r, admissible (Join [Join [dir d; C]; r.1 +:+ ".json"]
                           +:+ ".tmp") = true) records →
  NoDup records.*1 →
  Forall2 (λ r b, MarshalIndent r.2 = Some b) records encoded →
  (MkdirAll cwd (Join [dir d; C]) (files w)).2 = None →
  entries (files w) (resolve cwd (Join [dir d; C])) = [] →
  ∃ recs,
    ReadAll cwd C (write_each cwd Value MarshalIndent C records d w).1
      (write_each cwd Value MarshalIndent C records d w).2 = (recs, None)
    ∧ recs ≡ₚ (λ b, b +:+ newline) <$> encoded.
Proof.
  intros HC Hne Hok Hnames _ Hdup Henc Hmk Hempty.
  pose proof (coll_paths_intro cwd (dir d) C "x" HC eq_refl) as HP.
  unfold MkdirAll in Hmk. rewrite decide_False in Hmk by apply HP.
  set (P := resolve cwd (Join [dir d; C])) in *.
  assert (holds P ∅ (files w)) as Hholds.
  { split; [|by intros n [x Hx]]. intros n. rewrite lookup_empty. simpl.
    destruct (files w !! (P ++ [n])) as [x|] eqn:Hn; [|done].
    assert (n ∈ entries (files w) P) as Hin by (apply elem_of_entries; eauto).
    rewrite Hempty in Hin. by apply elem_of_nil in Hin. }
  destruct (write_each_holds C records encoded d w ∅ HC Hnames Henc Hdup)
    as (M & Hdir & Hlook & [Hfiles Hkeys] & Hperm); [done..|].
  specialize (Hlook Hne). fold P in Hlook, Hfiles.
  pose proof (write_each_names C records d w Hok) as Hok'.
  destruct (write_each cwd Value MarshalIndent C records d w) as [d' w'].
  simpl in *.
  rewrite map_to_list_empty, app_nil_r in Hperm.
  assert (lookup_path (files w') (resolve cwd (Join [dir d'; C])) = Ok Dir)
    as Hlook' by (by rewrite Hdir).
  destruct (ReadAll_cases cwd C d' w' HC Hok' Hlook')
    as [(recs & -> & Hall)|(n & _ & Hn & _)].
  - exists recs. split; [done|]. rewrite <-Hperm.
    rewrite <-fmap_lookup_keys.
    assert (entries (files w') P ≡ₚ (map_to_list M).*1) as Hents.
    { apply NoDup_Permutation;
        [apply NoDup_entries|apply NoDup_fst_map_to_list|].
      intros n. rewrite elem_of_entries, Hfiles, fmap_is_Some.
      rewrite list_elem_of_fmap. split.
      - intros [x Hx]. exists (n, x). by rewrite elem_of_map_to_list.
      - intros ([k x] & -> & Hkx%elem_of_map_to_list). by exists x. }
    rewrite <-Hents.
    assert (recs = (λ n, default "" (M !! n)) <$> entries (files w') P) as ->;
      [|done].
    rewrite Hdir in Hall. by apply (holds_records P M (files w') Hfiles).
  - rewrite Hdir in Hn. fold P in Hn. rewrite Hfiles in Hn.
    by destruct (M !! n).
Qed.
End write_loops.

(** ** Concrete scenarios of the further properties *)


(** A value the serializer refuses, on the store of the scenarios. *)
Lemma Write_unencodable_witness :
  only_adds_dirs ["home"; "db"; "users"] (files demo.world1)
    (files (Write demo.cwd string demo.MarshalFail "users" "alice" "hello"
              demo.db demo.world1).2)
  ∧ ((Write demo.cwd string demo.MarshalFail "users" "alice" "hello"
        demo.db demo.world1).1.1 = Some MarshalError
     ∧ lookup_path
         (files (Write demo.cwd string demo.MarshalFail "users" "alice"
                   "hello" demo.db demo.world1).2)
         ["home"; "db"; "users"] = Ok Dir
     ∨ ∃ e, (Write demo.cwd string demo.MarshalFail "users" "alice" "hello"
               demo.db demo.world1).1.1 = Some (PathError e)).
Proof.
  apply (Write_unencodable demo.cwd string demo.MarshalFail
           "users" "alice" "hello" demo.db demo.world1).
  - discriminate.
  - discriminate.
  - reflexivity.
Defined.

(** A directory at the final path of [alice]: the temporary file stays. *)
Lemma Write_over_directory_witness :
  (Write demo.cwd string demo.MarshalIndent "users" "alice" "hello"
     demo.db demo.world_dir_final).1.1 = Some (PathError EEXIST)
  ∧ files (Write demo.cwd string demo.MarshalIndent "users" "alice" "hello"
             demo.db demo.world_dir_final).2
    = <[ ["home"; "db"; "users"] ++ ["alice" +:+ ".json.tmp"]
         := File ("hello" +:+ newline) ]> (files demo.world_dir_final).
Proof.
  apply (Write_over_directory demo.cwd string demo.MarshalIndent
           "users" "alice" "hello" "hello" demo.db demo.world_dir_final).
  - discriminate.
  - reflexivity.
  - reflexivity.
  - vm_compute. reflexivity.
  - vm_compute. reflexivity.
  - vm_compute. discriminate.
Defined.

(** Writing [bob] leaves [alice] readable. *)
Lemma Write_keeps_other_resources_witness :
  Read demo.cwd string demo.Unmarshal "users" "alice"
    (Write demo.cwd string demo.MarshalIndent "users" "bob" "bye"
       demo.db2 demo.world2).1.2
    demo.world3
  = Ok "hello".
Proof.
  apply (Write_keeps_other_resources demo.cwd string demo.MarshalIndent
           demo.Unmarshal "users" "bob" "users" "alice" "bye" "hello"
           demo.db2 _ demo.world2 demo.world3).
  - discriminate.
  - reflexivity.
  - discriminate.
  - reflexivity.
  - vm_compute. discriminate.
  - vm_compute. reflexivity.
  - vm_compute. reflexivity.
Defined.

(** Writing [alice] a second time with the same value. *)
Lemma Write_again_changes_nothing_witness :
  Write demo.cwd string demo.MarshalIndent "users" "alice" "hello"
    demo.db2 demo.world2
  = (None, demo.db2, demo.world2).
Proof.
  apply (Write_again_changes_nothing demo.cwd string demo.MarshalIndent
           "users" "alice" "hello" demo.db demo.db2 demo.world1 demo.world2).
  - discriminate.
  - reflexivity.
  - vm_compute. reflexivity.
Defined.

(** A collection that was never written. *)
Lemma ReadAll_needs_directory_witness :
  ∃ e, ReadAll demo.cwd "pets" demo.db2 demo.world2 = ([], Some e).
Proof.
  apply (ReadAll_needs_directory demo.cwd "pets" demo.db2 demo.world2).
  vm_compute. discriminate.
Defined.

(** Reading the collection after [alice] was written, and after [bob]
    was written next to a subdirectory. *)
Lemma Write_then_ReadAll_witness :
  (∃ recs, ReadAll demo.cwd "users" demo.db2 demo.world2 = (recs, None)
     ∧ "hello" +:+ newline ∈ recs)
  ∧ ReadAll demo.cwd "users" demo.db2
      (Write demo.cwd string demo.MarshalIndent "users" "bob" "bye"
         demo.db2 demo.world_sub).2
    = ([], Some (PathError EISDIR)).
Proof.
  split.
  - destruct (Write_then_ReadAll demo.cwd string demo.MarshalIndent
                "users" "alice" "hello" "hello" demo.db demo.db2
                demo.world1 demo.world2) as [_ Hfiles].
    + repeat constructor.
    + apply (bool_decide_unpack _). vm_compute. exact I.
    + discriminate.
    + reflexivity.
    + reflexivity.
    + vm_compute. reflexivity.
    + apply Hfiles. apply (bool_decide_unpack _). vm_compute. exact I.
  - destruct (Write_then_ReadAll demo.cwd string demo.MarshalIndent
                "users" "bob" "bye" "bye" demo.db2 demo.db2
                demo.world_sub
                (Write demo.cwd string demo.MarshalIndent "users" "bob" "bye"
                   demo.db2 demo.world_sub).2) as [Hsub _].
    + repeat constructor.
    + apply (bool_decide_unpack _). vm_compute. exact I.
    + discriminate.
    + reflexivity.
    + reflexivity.
    + vm_compute. reflexivity.
    + apply (Hsub "sub"). vm_compute. reflexivity.
Defined.

(** Deleting [alice] after it was written. *)
Lemma Write_Delete_Read_witness :
  (Delete demo.cwd "users" "alice" demo.db2 demo.world2).1.1 = None
  ∧ removed (resolve demo.cwd (Join [dir demo.db; "users"])
             ++ ["alice" +:+ ".json"])
      (files demo.world2)
      (files (Delete demo.cwd "users" "alice" demo.db2 demo.world2).2)
  ∧ Read demo.cwd string demo.Unmarshal "users" "alice"
      (Delete demo.cwd "users" "alice" demo.db2 demo.world2).1.2
      (Delete demo.cwd "users" "alice" demo.db2 demo.world2).2
    = Err (PathError ENOENT).
Proof.
  apply (Write_Delete_Read demo.cwd string demo.MarshalIndent demo.Unmarshal
           "users" "alice" "hello" demo.db demo.db2 demo.world1 demo.world2).
  - discriminate.
  - reflexivity.
  - reflexivity.
  - vm_compute. reflexivity.
  - vm_compute. discriminate.
Defined.

(** The mutexes of [users] and [pets]. *)
Lemma mutexes_distinct_witness : (0 : Mutex) ≠ 1.
Proof.
  apply (mutexes_distinct demo.cwd string demo.MarshalIndent "./db"
           demo.two_collections demo.world0 "users" "pets" 0 1).
  - vm_compute. reflexivity.
  - vm_compute. reflexivity.
  - discriminate.
Defined.

(** The first write on the fresh store. *)
Lemma Write_succeeds_witness :
  (Write demo.cwd string demo.MarshalIndent "users" "alice" "hello"
     demo.db demo.world1).1.1 = None
  ∧ Read demo.cwd string demo.Unmarshal "users" "alice"
      (Write demo.cwd string demo.MarshalIndent "users" "alice" "hello"
         demo.db demo.world1).1.2
      (Write demo.cwd string demo.MarshalIndent "users" "alice" "hello"
         demo.db demo.world1).2
    = decode string demo.Unmarshal ("hello" +:+ newline).
Proof.
  apply (Write_succeeds demo.cwd string demo.MarshalIndent demo.Unmarshal
           "users" "alice" "hello" "hello" demo.db demo.world1).
  - discriminate.
  - reflexivity.
  - reflexivity.
  - vm_compute. reflexivity.
  - vm_compute. reflexivity.
  - vm_compute. discriminate.
  - vm_compute. discriminate.
Defined.

(** Two records written by the loop and read back. *)
Lemma ReadAll_after_writes_witness :
  ∃ recs,
    ReadAll demo.cwd "users"
      (write_each demo.cwd string demo.MarshalIndent "users" demo.two_records
         demo.db demo.world1).1
      (write_each demo.cwd string demo.MarshalIndent "users" demo.two_records
         demo.db demo.world1).2 = (recs, None)
    ∧ recs ≡ₚ (λ b, b +:+ newline) <$> ["bye"; "hello"].
Proof.
  apply (ReadAll_after_writes demo.cwd string demo.MarshalIndent).
  - repeat constructor.
  - discriminate.
  - discriminate.
  - apply (bool_decide_unpack _). vm_compute. exact I.
  - repeat constructor.
  - repeat constructor.
  - apply (bool_decide_unpack _). vm_compute. exact I.
  - repeat constructor.
  - vm_compute. reflexivity.
  - vm_compute. reflexivity.
Defined.
